(** * TikSpyder: the database layer ([databases/utilities.py], [databases/sql_manager.py])

    A shallow embedding of the record normalizers, of the two field
    extractors they call, and of [SQLDatabaseManager] over a small model
    of the SQLite store, followed by the properties of the specification
    that were checked against them.

    Conventions of the embedding.
    - A Python [str] is a [string]; its characters are code points below
      256 (one [ascii] each).  The patterns and separators of the source
      are ASCII, so within this range [\d], [re.IGNORECASE], [split] and
      [replace] behave exactly as written below.
    - A raw record (a Python [dict] with string keys) is a
      [gmap string Value]; [entry.get(k, d)] is [default d (entry !! k)].
    - A Python tuple is the list of its components.
    - Code that can raise returns a [result]; code that prints or touches
      the store threads a [World]. *)

From Stdlib Require Import Ascii String ZArith Lia List Bool.
From stdpp Require Import gmap strings list fin_maps pretty.

Local Open Scope list_scope.
Local Open Scope stdpp_scope.

(* ===================================================================== *)
(** * Python values, exceptions, results                                  *)
(* ===================================================================== *)

(** The values a raw record binds to a key: [None], a string, or (for
    [snippet_highlighted_words]) a sequence of strings. *)
Inductive Value : Type :=
  | VNone
  | VStr (s : string)
  | VList (l : list string).

(** The exception classes that the two source files can meet.
    [SqliteError] stands for [sqlite3.Error] and its subclasses, the only
    class the handlers of [sql_manager.py] name; [PandasDatabaseError] is
    [pandas.errors.DatabaseError] (a subclass of [OSError]), which
    [pandas.read_sql_query] raises in place of the driver's error. *)
Inductive exn : Type :=
  | IndexError
  | TypeError
  | AttributeError
  | SqliteError (msg : string)
  | PandasDatabaseError (msg : string).

Inductive result (A : Type) : Type :=
  | Ok (a : A)
  | Raise (e : exn).
Arguments Ok {A} a.
Arguments Raise {A} e.

(** Sequencing: the first exception raised is the one that leaves. *)
Global Instance result_bind : MBind result := λ A B k r,
  match r with
  | Ok a => k a
  | Raise e => Raise e
  end.

Global Instance Value_eq_dec : EqDecision Value.
Proof. solve_decision. Defined.

Global Instance exn_eq_dec : EqDecision exn.
Proof. solve_decision. Defined.

(* ===================================================================== *)
(** * Strings                                                             *)
(* ===================================================================== *)

Module Str.

Definition is_digit (c : ascii) : bool :=
  match Ascii.is_nat c with Some _ => true | None => false end.

(** [str.lower] on one character, for the characters ASCII patterns can
    be equal to. *)
Definition lower (c : ascii) : ascii :=
  let n := nat_of_ascii c in
  if (65 <=? n)%nat && (n <=? 90)%nat then ascii_of_nat (n + 32) else c.

(** [s.split(sep)] for a one-character separator: never empty, one more
    segment than there are separators. *)
Fixpoint split (sep : ascii) (s : string) : list string :=
  match s with
  | EmptyString => [EmptyString]
  | String c s' =>
      if Ascii.eqb c sep then EmptyString :: split sep s'
      else match split sep s' with
           | seg :: segs => String c seg :: segs
           | [] => [String c EmptyString]
           end
  end.

(** [s.replace(c, '')]: every occurrence of [c] is removed. *)
Fixpoint remove (c : ascii) (s : string) : string :=
  match s with
  | EmptyString => EmptyString
  | String x s' => if Ascii.eqb x c then remove c s' else String x (remove c s')
  end.

(** [sep.join(l)]. *)
Fixpoint join (sep : string) (l : list string) : string :=
  match l with
  | [] => EmptyString
  | [x] => x
  | x :: l' => x +:+ sep +:+ join sep l'
  end.

(** Iterating over a string yields its characters as one-character
    strings. *)
Fixpoint chars (s : string) : list string :=
  match s with
  | EmptyString => []
  | String c s' => String c EmptyString :: chars s'
  end.

Fixpoint mem (c : ascii) (s : string) : bool :=
  match s with
  | EmptyString => false
  | String x s' => Ascii.eqb x c || mem c s'
  end.

Definition starts_with (c : ascii) (s : string) : bool :=
  match s with
  | String x _ => Ascii.eqb x c
  | EmptyString => false
  end.

Definition hex_digit (n : nat) : ascii :=
  match n with
  | 0 => "0" | 1 => "1" | 2 => "2" | 3 => "3" | 4 => "4" | 5 => "5"
  | 6 => "6" | 7 => "7" | 8 => "8" | 9 => "9" | 10 => "a" | 11 => "b"
  | 12 => "c" | 13 => "d" | 14 => "e" | _ => "f"
  end%char.

(** [repr] of a string: quotes chosen as CPython does, backslash
    escapes for the quote, the backslash, tab, newline, return, and
    [\xhh] for the remaining unprintable code points below 256. *)
Definition repr_quote (s : string) : ascii :=
  if mem "'"%char s && negb (mem "034"%char s) then "034"%char else "'"%char.

Definition repr_char (q c : ascii) : string :=
  let n := nat_of_ascii c in
  if Ascii.eqb c q || Ascii.eqb c "\"%char then String "\"%char (String c "")
  else if (n =? 9)%nat then "\t"
  else if (n =? 10)%nat then "\n"
  else if (n =? 13)%nat then "\r"
  else if (n <? 32)%nat || (n =? 127)%nat
          || ((128 <=? n)%nat && (n <=? 160)%nat) || (n =? 173)%nat
       then String "\"%char (String "x"%char
              (String (hex_digit (n / 16)) (String (hex_digit (n mod 16)) "")))
  else String c "".

Fixpoint repr_body (q : ascii) (s : string) : string :=
  match s with
  | EmptyString => EmptyString
  | String c s' => repr_char q c +:+ repr_body q s'
  end.

Definition repr (s : string) : string :=
  let q := repr_quote s in
  String q (repr_body q s) +:+ String q "".

End Str.

(** [format(v)] as an f-string field applies it. *)
Definition py_format (v : Value) : string :=
  match v with
  | VNone => "None"
  | VStr s => s
  | VList l => "[" +:+ Str.join ", " (map Str.repr l) +:+ "]"
  end.

(** Truth value of a record value: [None], [''] and [[]] are false. *)
Definition truthy (v : Value) : bool :=
  match v with
  | VNone => false
  | VStr s => negb (String.eqb s "")
  | VList l => match l with [] => false | _ => true end
  end.

(** [dict.get(key, default)]. *)
Definition get (entry : gmap string Value) (key : string) (dflt : Value) : Value :=
  default dflt (entry !! key).

(* ===================================================================== *)
(** * Regular expressions ([re])                                          *)
(* ===================================================================== *)

(** The fragment of [re] that the two patterns of [utilities.py] use, with
    the matching discipline of a backtracking engine: every operator
    lists its ways to match in the order the engine tries them (greedy
    repetition first), and a search takes the first way at the leftmost
    start position that has one. *)
Module Re.

Inductive cclass : Type :=
  | CDigit                 (* \d inside a set *)
  | CChar (c : ascii).

Inductive regex : Type :=
  | Eps
  | Chr (c : ascii)        (* a literal character *)
  | Digit                  (* \d *)
  | Set_ (items : list cclass)   (* [...] *)
  | Seq (r1 r2 : regex)
  | Star (r : regex)       (* r*, greedy *)
  | Plus (r : regex)       (* r+, greedy *)
  | Opt (r : regex)        (* r?, greedy; (?:...) only groups *)
  | Group (g : nat) (r : regex).   (* ( ... ), capturing *)

(** A compiled pattern: the expression and the [re.IGNORECASE] flag. *)
Record pattern : Type := compile { expr : regex; ignorecase : bool }.

(** Captured groups, most recent first. *)
Definition caps : Type := list (nat * string).

(** One way to match at the head of a text: what was consumed, what is
    left, and the groups captured so far. *)
Definition way : Type := (string * string * caps)%type.

Definition char_match (ic : bool) (c x : ascii) : bool :=
  if ic then Ascii.eqb (Str.lower x) (Str.lower c) else Ascii.eqb x c.

Definition class_match (ic : bool) (k : cclass) (x : ascii) : bool :=
  match k with
  | CDigit => Str.is_digit x
  | CChar c => char_match ic c x
  end.

Definition one (test : ascii → bool) (s : string) (c : caps) : list way :=
  match s with
  | String x s' => if test x then [(String x "", s', c)] else []
  | EmptyString => []
  end.

(** Greedy repetition: one more round of [step] that consumes something,
    then the rest of the repetition; failing that, stop here.  No round
    can be longer than the text, which bounds the number of rounds. *)
Fixpoint star (step : string → caps → list way) (fuel : nat)
    (s : string) (c : caps) : list way :=
  match fuel with
  | 0 => [("", s, c)]
  | S n =>
      ('(p1, s1, c1) ← step s c;
       if decide (p1 = "") then []
       else '(p2, s2, c2) ← star step n s1 c1; [(p1 +:+ p2, s2, c2)])
      ++ [("", s, c)]
  end.

Fixpoint ways (ic : bool) (r : regex) (s : string) (c : caps) : list way :=
  match r with
  | Eps => [("", s, c)]
  | Chr a => one (char_match ic a) s c
  | Digit => one Str.is_digit s c
  | Set_ items => one (λ x, existsb (λ k, class_match ic k x) items) s c
  | Seq r1 r2 =>
      '(p1, s1, c1) ← ways ic r1 s c;
      '(p2, s2, c2) ← ways ic r2 s1 c1; [(p1 +:+ p2, s2, c2)]
  | Star r' => star (ways ic r') (String.length s) s c
  | Plus r' =>
      '(p1, s1, c1) ← ways ic r' s c;
      '(p2, s2, c2) ← star (ways ic r') (String.length s1) s1 c1;
      [(p1 +:+ p2, s2, c2)]
  | Opt r' => ways ic r' s c ++ [("", s, c)]
  | Group g r' => (λ '(p, s', c'), (p, s', (g, p) :: c')) <$> ways ic r' s c
  end.

(** A match object: the text of group 0 and the captured groups. *)
Record match_ : Type := Match { whole : string; groups : caps }.

(** Leftmost start position first, then the first way there. *)
Fixpoint search_str (p : pattern) (s : string) : option match_ :=
  match ways (ignorecase p) (expr p) s [] with
  | (w, _, c) :: _ => Some (Match w c)
  | [] =>
      match s with
      | EmptyString => None
      | String _ s' => search_str p s'
      end
  end.

(** [pattern.search(text)]: a string pattern refuses what is not a
    string. *)
Definition search (p : pattern) (text : Value) : result (option match_) :=
  match text with
  | VStr s => Ok (search_str p s)
  | _ => Raise TypeError
  end.

(** [m.group(g)] for [g >= 1]: [None] when the group took no part. *)
Fixpoint assoc (g : nat) (c : caps) : option string :=
  match c with
  | [] => None
  | (g', v) :: c' => if (g =? g')%nat then Some v else assoc g c'
  end.

Definition group (m : match_) (g : nat) : Value :=
  match assoc g (groups m) with
  | Some v => VStr v
  | None => VNone
  end.

(** The expression of a literal piece of pattern text. *)
Fixpoint lit (s : string) : regex :=
  match s with
  | EmptyString => Eps
  | String a EmptyString => Chr a
  | String a s' => Seq (Chr a) (lit s')
  end.

End Re.

(* ===================================================================== *)
(** * [utilities.py]                                                      *)
(* ===================================================================== *)

(** [\d+(?:[\d,.]*\d+)?(?:[KM])?] ... *)
Definition count_expr : Re.regex :=
  Re.Seq (Re.Plus Re.Digit)
    (Re.Seq
      (Re.Opt (Re.Seq (Re.Star (Re.Set_ [Re.CDigit; Re.CChar ","; Re.CChar "."]))
                      (Re.Plus Re.Digit)))
      (Re.Opt (Re.Set_ [Re.CChar "K"; Re.CChar "M"]))).

(** ... and [( ... )] around it, the group both patterns open with. *)
Definition count_group : Re.regex := Re.Group 1 count_expr.

(** [re.compile(r'(\d+(?:[\d,.]*\d+)?(?:[KM])?) Likes', re.IGNORECASE)]
    and its twin for Comments (utilities.py, lines 22-30). *)
Definition likes_pattern : Re.pattern :=
  Re.compile (Re.Seq count_group (Re.lit " Likes")) true.

Definition comments_pattern : Re.pattern :=
  Re.compile (Re.Seq count_group (Re.lit " Comments")) true.

(** [extract_likes_comments] (utilities.py, lines 13-40): two
    independent searches, group 1 of each match or [None]. *)
Definition extract_likes_comments (text : Value) : result (Value * Value) :=
  likes_match ← Re.search likes_pattern text;
  comments_match ← Re.search comments_pattern text;
  let likes :=
    match likes_match with Some m => Re.group m 1 | None => VNone end in
  let comments :=
    match comments_match with Some m => Re.group m 1 | None => VNone end in
  Ok (likes, comments).

(** [extract_author_post_id] (utilities.py, lines 46-59):
    [link.split('/')[3].replace('@', '')], the profile URL built from it,
    and [link.split('/')[-1]].  Index 3 of a shorter list is an
    [IndexError]; index -1 of a split always exists; what is not a
    string has no [split]. *)
Definition extract_author_post_id (link : Value)
    : result (string * string * string) :=
  match link with
  | VStr link =>
      match Str.split "/" link !! 3%nat with
      | Some seg =>
          let author := Str.remove "@" seg in
          let link_to_author := "https://www.tiktok.com/@" +:+ author in
          let post_id := List.last (Str.split "/" link) "" in
          Ok (author, link_to_author, post_id)
      | None => Raise IndexError
      end
  | _ => Raise AttributeError
  end.

(** The conditional expression that fills [snippet_highlighted_words]
    (utilities.py, lines 91-93): the words joined with [", "] when the
    value is truthy, else [None].  Joining a string joins its
    characters. *)
Definition highlighted_words (entry : gmap string Value) : Value :=
  if truthy (get entry "snippet_highlighted_words" VNone) then
    match get entry "snippet_highlighted_words" (VList []) with
    | VList l => VStr (Str.join ", " l)
    | VStr s => VStr (Str.join ", " (Str.chars s))
    | VNone => VNone
    end
  else VNone.

(** [get_items_from_search_results] (utilities.py, lines 65-101).  The
    three lookups that feed the derivations default to [''], the copied
    fields to [None]; the likes/comments search runs first, then the
    link is taken apart. *)
Definition get_items_from_search_results (entry : gmap string Value)
    : result (list Value) :=
  let title := get entry "title" (VStr "") in
  let snippet := get entry "snippet" (VStr "") in
  let link := get entry "link" (VStr "") in
  '(likes, comments) ← extract_likes_comments snippet;
  let title_snippet := py_format title +:+ " " +:+ py_format snippet in
  '(author, link_to_author, post_id) ← extract_author_post_id link;
  Ok [ get entry "source" VNone;
       get entry "title" VNone;
       get entry "snippet" VNone;
       get entry "link" VNone;
       get entry "thumbnail" VNone;
       get entry "video_link" VNone;
       highlighted_words entry;
       get entry "displayed_link" VNone;
       VStr title_snippet;
       likes;
       comments;
       VStr author;
       VStr link_to_author;
       VStr post_id ].

(** [get_items_from_images_results] (utilities.py, lines 107-129). *)
Definition get_items_from_images_results (entry : gmap string Value)
    : result (list Value) :=
  let link := get entry "link" (VStr "") in
  '(author, link_to_author, post_id) ← extract_author_post_id link;
  Ok [ get entry "source" VNone;
       get entry "title" VNone;
       get entry "link" VNone;
       get entry "thumbnail" VNone;
       VStr author;
       VStr link_to_author;
       VStr post_id ].

(** [get_items_from_related_content] (utilities.py, lines 135-148). *)
Definition get_items_from_related_content (entry : gmap string Value)
    : result (list Value) :=
  Ok [ get entry "source" VNone;
       get entry "link" VNone;
       get entry "thumbnail" VNone;
       get entry "title" VNone ].

(* ===================================================================== *)
(** * The store ([sqlite3], [pandas])                                     *)
(* ===================================================================== *)

(** What the database file and the output directory hold, as far as the
    statements of [sql_manager.py] can tell.  A table is its column names
    and its rows, each row aligned with the columns.  Rows are never
    deleted, so the key [AUTOINCREMENT] hands out is one more than the
    largest [record_id] present. *)
Module Sqlite.

Inductive SqlVal : Type :=
  | SNull
  | SInt (n : Z)
  | SText (s : string).

Global Instance SqlVal_eq_dec : EqDecision SqlVal.
Proof. solve_decision. Defined.

Record Table : Type := mkTable {
  columns : list string;
  rows : list (list SqlVal)
}.

Global Instance Table_eq_dec : EqDecision Table.
Proof. solve_decision. Defined.

(** An open connection: what is committed in the file, and what the
    connection sees (the committed state plus its own pending
    changes). *)
Record Connection : Type := mkConn {
  committed : gmap string Table;
  pending : gmap string Table
}.

(** [sqlite3.connect(file)]; [None] is a file that cannot be opened. *)
Definition connect (store : option (gmap string Table)) : result Connection :=
  match store with
  | Some d => Ok (mkConn d d)
  | None => Raise (SqliteError "unable to open database file")
  end.

Definition commit (conn : Connection) : Connection :=
  mkConn (pending conn) (pending conn).

(** [conn.close()]: what was not committed is lost. *)
Definition close (conn : Connection) : gmap string Table :=
  committed conn.

(** [CREATE TABLE IF NOT EXISTS name (cols)]. *)
Definition create_table_if_not_exists (name : string) (cols : list string)
    (conn : Connection) : result Connection :=
  match pending conn !! name with
  | Some _ => Ok conn
  | None => Ok (mkConn (committed conn) (<[name := mkTable cols []]> (pending conn)))
  end.

(** Parameter binding: [None] and strings are supported, a list is
    not.  Parameters are numbered from 1 in the message. *)
Fixpoint bind_parameters (i : nat) (params : list Value) : result (list SqlVal) :=
  match params with
  | [] => Ok []
  | VNone :: ps => vs ← bind_parameters (S i) ps; Ok (SNull :: vs)
  | VStr s :: ps => vs ← bind_parameters (S i) ps; Ok (SText s :: vs)
  | VList _ :: _ =>
      Raise (SqliteError ("Error binding parameter " +:+ pretty i
                          +:+ ": type 'list' is not supported"))
  end.

Definition key_of (cols : list string) (row : list SqlVal) : Z :=
  match list_find (String.eqb "record_id") cols with
  | Some (i, _) => match row !! i with Some (SInt n) => n | _ => 0%Z end
  | None => 0%Z
  end.

Definition next_key (t : Table) : Z :=
  (1 + foldr Z.max 0 (key_of (columns t) <$> rows t))%Z.

Fixpoint assoc (c : string) (cols : list string) (vals : list SqlVal) : SqlVal :=
  match cols, vals with
  | c' :: cols', v :: vals' => if String.eqb c c' then v else assoc c cols' vals'
  | _, _ => SNull
  end.

Definition new_row (t : Table) (cols : list string) (vals : list SqlVal)
    : list SqlVal :=
  (λ c, if String.eqb c "record_id" then SInt (next_key t) else assoc c cols vals)
    <$> columns t.

(** [INSERT INTO name (cols) VALUES (?, ..., ?)] with [params]: the
    statement is compiled against the schema first, then the parameters
    are bound, then the row is appended. *)
Definition insert (name : string) (cols : list string) (params : list Value)
    (conn : Connection) : result Connection :=
  match pending conn !! name with
  | None => Raise (SqliteError ("no such table: " +:+ name))
  | Some t =>
      match list_find (λ c, bool_decide (c ∉ columns t)) cols with
      | Some (_, c) =>
          Raise (SqliteError ("table " +:+ name +:+ " has no column named " +:+ c))
      | None =>
          if bool_decide (length params = length cols) then
            vals ← bind_parameters 1 params;
            Ok (mkConn (committed conn)
                  (<[name := mkTable (columns t) (rows t ++ [new_row t cols vals])]>
                     (pending conn)))
          else Raise (SqliteError "Incorrect number of bindings supplied.")
      end
  end.

(** The values of one column, top to bottom. *)
Definition column (c : string) (t : Table) : option (list SqlVal) :=
  match list_find (String.eqb c) (columns t) with
  | Some (i, _) => Some ((λ row, default SNull (row !! i)) <$> rows t)
  | None => None
  end.

(** [SELECT c FROM a UNION SELECT c FROM b]: the distinct values of the
    two columns together.  SQL fixes no order for the result; the one
    chosen here keeps each value where it occurs last. *)
Definition select_union (c a b : string) (conn : Connection)
    : result (list SqlVal) :=
  match pending conn !! b with
  | None => Raise (SqliteError ("no such table: " +:+ b))
  | Some tb =>
      match pending conn !! a with
      | None => Raise (SqliteError ("no such table: " +:+ a))
      | Some ta =>
          match column c ta, column c tb with
          | Some xs, Some ys => Ok (remove_dups (xs ++ ys))
          | _, _ => Raise (SqliteError ("no such column: " +:+ c))
          end
      end
  end.

(** A [pandas.DataFrame]: a header and the rows under it. *)
Record Frame : Type := mkFrame {
  header : list string;
  body : list (list SqlVal)
}.

(** [pd.read_sql_query('SELECT * FROM t', conn)]: pandas raises its own
    [DatabaseError], carrying the driver's message, when the statement
    fails. *)
Definition read_sql_query (t : string) (conn : Connection) : result Frame :=
  match pending conn !! t with
  | Some tb => Ok (mkFrame (columns tb) (rows tb))
  | None => Raise (PandasDatabaseError ("no such table: " +:+ t))
  end.

End Sqlite.

Import Sqlite.

(** The world around one manager: its database file ([None] when the
    file cannot be opened), the CSV files of its output directory (each
    held as the frame written to it), and what has been printed. *)
Record World : Type := mkWorld {
  store : option (gmap string Table);
  files : gmap string Frame;
  stdout : list string
}.

Definition print (line : string) (w : World) : World :=
  mkWorld (store w) (files w) (stdout w ++ [line]).

Definition set_store (d : gmap string Table) (w : World) : World :=
  mkWorld (Some d) (files w) (stdout w).

(** [df.to_csv(path, index=False, encoding='utf-8')]. *)
Definition to_csv (path : string) (df : Frame) (w : World) : World :=
  mkWorld (store w) (<[path := df]> (files w)) (stdout w).

(* ===================================================================== *)
(** * [sql_manager.py]                                                    *)
(* ===================================================================== *)

Record SQLDatabaseManager : Type := mkManager {
  output : string;
  sql_database_file : string
}.

Definition search_results_columns : list string :=
  [ "record_id"; "source"; "title"; "snippet"; "link"; "thumbnail";
    "video_link"; "snippet_highlighted_words"; "displayed_link";
    "title_snippet"; "likes"; "comments"; "author"; "link_to_author";
    "post_id" ].

Definition images_results_columns : list string :=
  [ "record_id"; "source"; "title"; "link"; "thumbnail"; "author";
    "link_to_author"; "post_id" ].

Definition related_content_columns : list string :=
  [ "record_id"; "source"; "link"; "thumbnail"; "title" ].

(** [create_sql_connection] (sql_manager.py, lines 41-52): the
    connection, or a printed diagnostic and [None]. *)
Definition create_sql_connection (w : World) : World * option Connection :=
  match connect (store w) with
  | Ok conn => (w, Some conn)
  | Raise (SqliteError e) => (print ("An error occurred: " +:+ e) w, None)
  | Raise _ => (w, None)
  end.

(** How a block [try: ... except Error as e: print(report e) finally:
    conn.close()] ends, [conn] being the connection as the body left it
    and [r] the body's outcome: an [sqlite3.Error] is printed and
    swallowed, any other exception goes on to the caller, and the
    connection is closed in every case. *)
Definition finish (report : string → string) (conn : Connection)
    (r : result ()) (w : World) : World * result () :=
  match r with
  | Ok _ => (set_store (close conn) w, Ok ())
  | Raise (SqliteError e) => (set_store (close conn) (print (report e) w), Ok ())
  | Raise e => (set_store (close conn) w, Raise e)
  end.

(** The body shared by the three [create_*_table] methods
    (sql_manager.py, lines 54-93, 129-161, 195-224), which differ in the
    statement only. *)
Definition create_table (name : string) (cols : list string) (w : World)
    : World * result () :=
  match create_sql_connection w with
  | (w, Some conn) =>
      match create_table_if_not_exists name cols conn with
      | Ok conn' =>
          finish (λ e, "An error occurred: " +:+ e) (commit conn') (Ok ()) w
      | Raise e => finish (λ e, "An error occurred: " +:+ e) conn (Raise e) w
      end
  | (w, None) => (print "Failed to create the database connection." w, Ok ())
  end.

Definition create_search_results_table : World → World * result () :=
  create_table "query_search_results" search_results_columns.

Definition create_images_results_table : World → World * result () :=
  create_table "images_results" images_results_columns.

Definition create_related_content_table : World → World * result () :=
  create_table "related_content" related_content_columns.

(** The [for entry in data] loop of the three [insert_*] methods
    (sql_manager.py, lines 106-120, 174-186, 237-248): the row is
    normalized, inserted, and committed; the [try] is around the loop,
    so the first exception leaves it. *)
Fixpoint insert_rows (table : string) (cols : list string)
    (items : gmap string Value → result (list Value))
    (data : list (gmap string Value)) (conn : Connection)
    : Connection * result () :=
  match data with
  | [] => (conn, Ok ())
  | entry :: data' =>
      match params ← items entry; insert table cols params conn with
      | Ok conn' => insert_rows table cols items data' (commit conn')
      | Raise e => (conn, Raise e)
      end
  end.

(** The body shared by the three [insert_*] methods (sql_manager.py,
    lines 95-127, 163-193, 226-255). *)
Definition insert_into (table : string) (cols : list string)
    (items : gmap string Value → result (list Value))
    (data : list (gmap string Value)) (w : World) : World * result () :=
  match create_sql_connection w with
  | (w, Some conn) =>
      let '(conn', r) := insert_rows table cols items data conn in
      finish (λ e, "An error occurred while inserting data: " +:+ e) conn' r w
  | (w, None) => (print "Failed to create the database connection." w, Ok ())
  end.

(** The column lists of the three [INSERT] statements. *)
Definition search_results_fields : list string :=
  [ "source"; "title"; "snippet"; "link"; "thumbnail"; "video_link";
    "snippet_highlighted_words"; "displayed_link"; "title_snippet";
    "likes"; "comments"; "author"; "link_to_author"; "post_id" ].

Definition images_results_fields : list string :=
  [ "source"; "title"; "link"; "thumbnail"; "author"; "link_to_author";
    "post_id" ].

Definition related_content_fields : list string :=
  [ "source"; "link"; "thumbnail"; "title" ].

Definition insert_search_results : list (gmap string Value) → World → World * result () :=
  insert_into "query_search_results" search_results_fields
    get_items_from_search_results.

Definition insert_images_results : list (gmap string Value) → World → World * result () :=
  insert_into "images_results" images_results_fields
    get_items_from_images_results.

Definition insert_related_content : list (gmap string Value) → World → World * result () :=
  insert_into "related_content" related_content_fields
    get_items_from_related_content.

(** The [for t in tables] loop of [fetch_all_data] (sql_manager.py,
    lines 265-279): each table is read and written to
    [<output>/<t>.csv]; the [try] is around the loop, so the first
    exception leaves it, together with the table it was raised for. *)
Fixpoint export_tables (self : SQLDatabaseManager) (tables : list string)
    (conn : Connection) (w : World) : World * option (string * exn) :=
  match tables with
  | [] => (w, None)
  | t :: tables' =>
      match read_sql_query t conn with
      | Ok df =>
          export_tables self tables' conn
            (to_csv (output self +:+ "/" +:+ t +:+ ".csv") df w)
      | Raise e => (w, Some (t, e))
      end
  end.

(** [fetch_all_data] (sql_manager.py, lines 257-284). *)
Definition fetch_all_data (self : SQLDatabaseManager) (w : World)
    : World * result () :=
  let tables := ["query_search_results"; "images_results"; "related_content"] in
  match create_sql_connection w with
  | (w, Some conn) =>
      match export_tables self tables conn w with
      | (w, None) => (set_store (close conn) w, Ok ())
      | (w, Some (t, e)) =>
          finish (λ e, "An error occurred while fetching data from " +:+ t
                       +:+ ": " +:+ e) conn (Raise e) w
      end
  | (w, None) => (w, Ok ())
  end.

(** [get_collected_videos] (sql_manager.py, lines 286-316): [data]
    starts empty and stays so unless the query returns. *)
Definition get_collected_videos (w : World) : World * result (list SqlVal) :=
  match create_sql_connection w with
  | (w, Some conn) =>
      match select_union "link" "query_search_results" "images_results" conn with
      | Ok data =>
          (set_store (close conn) w, Ok data)
      | Raise (SqliteError e) =>
          (set_store (close conn)
             (print ("An error occurred while inserting data: " +:+ e) w), Ok [])
      | Raise e => (set_store (close conn) w, Raise e)
      end
  | (w, None) => (w, Ok [])
  end.

(** [SQLDatabaseManager(output)] (sql_manager.py, lines 26-39). *)
Definition init (output : string) (w : World) : World * result SQLDatabaseManager :=
  let self := mkManager output (output +:+ "/database.sql") in
  match create_search_results_table w with
  | (w, Raise e) => (w, Raise e)
  | (w, Ok _) =>
      match create_images_results_table w with
      | (w, Raise e) => (w, Raise e)
      | (w, Ok _) =>
          match create_related_content_table w with
          | (w, Raise e) => (w, Raise e)
          | (w, Ok _) => (w, Ok self)
          end
      end
  end.

(* ===================================================================== *)
(** * The vocabulary of the specification                                 *)
(* ===================================================================== *)

(** The link shape [https://<host>/@<author>/.../<post_id>]: split on
    ['/'], a scheme, the empty segment, a host, a profile segment that
    opens with ['@'], and at least one more segment. *)
Definition conforming (link : string) : bool :=
  match Str.split "/" link with
  | scheme :: gap :: host :: profile :: _ :: _ =>
      String.eqb scheme "https:" && String.eqb gap ""
      && negb (String.eqb host "") && Str.starts_with "@" profile
  | _ => false
  end.

(** A segment with its leading [c] stripped. *)
Definition strip_leading (c : ascii) (s : string) : string :=
  match s with
  | String x s' => if Ascii.eqb x c then s' else s
  | EmptyString => EmptyString
  end.

(** The columns a normalizer copies from the record (not derived):
    position in the tuple and key. *)
Definition search_results_copied : list (nat * string) :=
  [ (0, "source"); (1, "title"); (2, "snippet"); (3, "link");
    (4, "thumbnail"); (5, "video_link"); (6, "snippet_highlighted_words");
    (7, "displayed_link") ].

Definition images_results_copied : list (nat * string) :=
  [ (0, "source"); (1, "title"); (2, "link"); (3, "thumbnail") ].

Definition related_content_copied : list (nat * string) :=
  [ (0, "source"); (1, "link"); (2, "thumbnail"); (3, "title") ].

(** The language of an expression: the texts it can consume, whatever
    the order in which an engine tries them. *)
Inductive lang (ic : bool) : Re.regex → string → Prop :=
  | lang_eps : lang ic Re.Eps ""
  | lang_chr a x :
      Re.char_match ic a x = true → lang ic (Re.Chr a) (String x "")
  | lang_digit x :
      Str.is_digit x = true → lang ic Re.Digit (String x "")
  | lang_set items x :
      existsb (λ k, Re.class_match ic k x) items = true →
      lang ic (Re.Set_ items) (String x "")
  | lang_seq r1 r2 p1 p2 :
      lang ic r1 p1 → lang ic r2 p2 → lang ic (Re.Seq r1 r2) (p1 +:+ p2)
  | lang_star_stop r : lang ic (Re.Star r) ""
  | lang_star_more r p1 p2 :
      p1 ≠ "" → lang ic r p1 → lang ic (Re.Star r) p2 →
      lang ic (Re.Star r) (p1 +:+ p2)
  | lang_plus r p1 p2 :
      lang ic r p1 → lang ic (Re.Star r) p2 → lang ic (Re.Plus r) (p1 +:+ p2)
  | lang_opt_skip r : lang ic (Re.Opt r) ""
  | lang_opt_take r p : lang ic r p → lang ic (Re.Opt r) p
  | lang_group g r p : lang ic r p → lang ic (Re.Group g r) p.

Fixpoint no_groups (r : Re.regex) : bool :=
  match r with
  | Re.Eps | Re.Chr _ | Re.Digit | Re.Set_ _ => true
  | Re.Seq r1 r2 => no_groups r1 && no_groups r2
  | Re.Star r' | Re.Plus r' | Re.Opt r' => no_groups r'
  | Re.Group _ _ => false
  end.

Fixpoint str_forall (test : ascii → bool) (s : string) : bool :=
  match s with
  | EmptyString => true
  | String c s' => test c && str_forall test s'
  end.

(** "A number": digits, possibly with [,] and [.] between them, first
    and last character a digit ... *)
Definition count_char (c : ascii) : bool :=
  Str.is_digit c || Ascii.eqb c "," || Ascii.eqb c ".".

Fixpoint count_tail (s : string) : bool :=
  match s with
  | EmptyString => true
  | String c EmptyString => Str.is_digit c
  | String c s' => count_char c && count_tail s'
  end.

Definition count_body (s : string) : bool :=
  match s with
  | String c s' => Str.is_digit c && count_tail s'
  | EmptyString => false
  end.

(** ... and "a trailing K/M suffix", in either case, or none. *)
Definition magnitude (s : string) : bool :=
  match s with
  | EmptyString => true
  | String c EmptyString =>
      Ascii.eqb (Str.lower c) "k" || Ascii.eqb (Str.lower c) "m"
  | _ => false
  end.

Definition is_count (n : string) : Prop :=
  ∃ body suffix,
    n = body +:+ suffix ∧ count_body body = true ∧ magnitude suffix = true.

Fixpoint lower_str (s : string) : string :=
  match s with
  | EmptyString => EmptyString
  | String c s' => String (Str.lower c) (lower_str s')
  end.

(** [n] stands in [text] right after [pre], followed by one space and by
    [word] in any mix of cases. *)
Definition occurs_at (word text pre n : string) : Prop :=
  ∃ w post,
    text = pre +:+ n +:+ " " +:+ w +:+ post
    ∧ is_count n ∧ lower_str w = lower_str word.

(** The pattern of [utilities.py] for a given word: the count group, one
    space, the word, under [re.IGNORECASE].  [likes_pattern] is
    [count_pattern "Likes"], [comments_pattern] is
    [count_pattern "Comments"]. *)
Definition count_word : string → Re.regex :=
  λ word, Re.Seq count_group (Re.lit (String " " word)).

Definition count_pattern (word : string) : Re.pattern :=
  Re.compile (count_word word) true.

(** The occurrence that starts first. *)
Definition first_occurrence (word text n : string) : Prop :=
  ∃ pre,
    occurs_at word text pre n
    ∧ ∀ pre' n', occurs_at word text pre' n' →
        String.length pre ≤ String.length pre'.

(* ===================================================================== *)
(** * Sample inputs                                                       *)
(* ===================================================================== *)

Definition jane_link : string := "https://www.tiktok.com/@jane.doe/video/12345".

(** A record whose snippet is present and null. *)
Definition null_snippet_entry : gmap string Value :=
  {[ "link" := VStr jane_link; "snippet" := VNone ]}.

(** A link of the shape whose author segment holds a second ['@']. *)
Definition inner_at_link : string := "https://www.tiktok.com/@a@b/video/1".

(** A link that is not of the shape and still has four segments. *)
Definition off_shape_link : string := "http://example.com/watch/42".

(** A record whose link has fewer than four segments. *)
Definition short_link_entry : gmap string Value :=
  {[ "link" := VStr "tiktok.com/@jane.doe"; "title" := VStr "clip" ]}.

(** A record with a link only. *)
Definition link_only_entry : gmap string Value :=
  {[ "link" := VStr jane_link ]}.

(** A record with every copied key present and well typed. *)
Definition full_entry : gmap string Value :=
  {[ "source" := VStr "TikTok"; "title" := VStr "Dance";
     "snippet" := VStr "1.2K Likes, 340 Comments"; "link" := VStr jane_link;
     "thumbnail" := VStr "t.jpg"; "video_link" := VStr "v.mp4";
     "snippet_highlighted_words" := VList ["dance"; "clip"];
     "displayed_link" := VStr "www.tiktok.com" ]}.

(* ===================================================================== *)
(** * The store operations by name                                        *)
(* ===================================================================== *)

(** The three table-ensure operations, each with the table it ensures
    and the columns it gives a new table. *)
Definition table_ensurers : list (string * list string * (World → World * result ())) :=
  [ ("query_search_results", search_results_columns, create_search_results_table);
    ("images_results", images_results_columns, create_images_results_table);
    ("related_content", related_content_columns, create_related_content_table) ].

(** A store with one search result and one image result in it. *)
Definition sample_store : gmap string Table :=
  {[ "query_search_results" :=
       mkTable search_results_columns
         [ [ SInt 1; SText "TikTok"; SText "Dance"; SNull; SText jane_link;
             SNull; SNull; SNull; SNull; SText "Dance "; SNull; SNull;
             SText "jane.doe"; SText "https://www.tiktok.com/@jane.doe";
             SText "12345" ] ];
     "images_results" :=
       mkTable images_results_columns
         [ [ SInt 1; SText "TikTok"; SText "Dance"; SText jane_link; SNull;
             SText "jane.doe"; SText "https://www.tiktok.com/@jane.doe";
             SText "12345" ];
           [ SInt 2; SText "TikTok"; SNull;
             SText "https://www.tiktok.com/@joe/video/7"; SNull;
             SText "joe"; SText "https://www.tiktok.com/@joe"; SText "7" ] ] ]}.

Definition sample_world : World := mkWorld (Some sample_store) ∅ [].

(** The three batch inserts, each with its table, the columns of its
    statement, and its normalizer. *)
Definition inserters
    : list (string * list string * (gmap string Value → result (list Value))
            * (list (gmap string Value) → World → World * result ())) :=
  [ ("query_search_results", search_results_fields,
     get_items_from_search_results, insert_search_results);
    ("images_results", images_results_fields,
     get_items_from_images_results, insert_images_results);
    ("related_content", related_content_fields,
     get_items_from_related_content, insert_related_content) ].

(** What one record comes to on its way into a statement: normalized,
    then bound. *)
Definition bound (items : gmap string Value → result (list Value))
    (entry : gmap string Value) : result (list SqlVal) :=
  params ← items entry; bind_parameters 1 params.

(** A table after the rows of [valss] have been appended, one by one. *)
Fixpoint append_rows (t : Table) (cols : list string)
    (valss : list (list SqlVal)) : Table :=
  match valss with
  | [] => t
  | vals :: valss' =>
      append_rows (mkTable (columns t) (rows t ++ [new_row t cols vals]))
        cols valss'
  end.

(** Three related-content records; the second binds a list where the
    statement needs a scalar. *)
Definition card_a : gmap string Value :=
  {[ "source" := VStr "TikTok"; "link" := VStr "https://www.tiktok.com/@a/video/1" ]}.

Definition card_bad : gmap string Value :=
  {[ "source" := VList ["TikTok"]; "link" := VStr "https://www.tiktok.com/@b/video/2" ]}.

Definition card_c : gmap string Value :=
  {[ "source" := VStr "TikTok"; "link" := VStr "https://www.tiktok.com/@c/video/3" ]}.

Definition empty_tables_store : gmap string Table :=
  {[ "query_search_results" := mkTable search_results_columns [];
     "images_results" := mkTable images_results_columns [];
     "related_content" := mkTable related_content_columns [] ]}.

Definition empty_tables_world : World := mkWorld (Some empty_tables_store) ∅ [].

(** A store whose [images_results] table is missing. *)
Definition no_images_store : gmap string Table :=
  {[ "query_search_results" := mkTable search_results_columns [];
     "related_content" :=
       mkTable related_content_columns
         [ [ SInt 1; SText "TikTok"; SText jane_link; SNull; SNull ] ] ]}.

Definition no_images_world : World := mkWorld (Some no_images_store) ∅ [].

Definition sample_manager : SQLDatabaseManager :=
  mkManager "out" "out/database.sql".

(* ===================================================================== *)
(** * Vocabulary of the further properties                                *)
(* ===================================================================== *)

(** How often a character occurs in a string. *)
Fixpoint occurrences (c : ascii) (s : string) : nat :=
  match s with
  | EmptyString => 0
  | String x s' => (if Ascii.eqb x c then 1 else 0) + occurrences c s'
  end.

(** A store in which the related-content table was never created. *)
Definition two_tables_store : gmap string Table :=
  {[ "query_search_results" := mkTable search_results_columns [];
     "images_results" := mkTable images_results_columns [] ]}.

Definition two_tables_world : World := mkWorld (Some two_tables_store) ∅ [].

(** A world whose database file cannot be opened. *)
Definition closed_world : World := mkWorld None ∅ [].

(** What the database holds for a bound parameter. *)
Definition stored (v : Value) : SqlVal :=
  match v with
  | VStr s => SText s
  | _ => SNull
  end.

(** What it holds for a tuple of bound parameters. *)
Definition stored_row (params : list Value) : list SqlVal := stored <$> params.

(** A value the driver can bind. *)
Definition bindable (v : Value) : bool :=
  match v with
  | VList _ => false
  | _ => true
  end.

(** Rows numbered from [k] on: each list of values behind its key. *)
Fixpoint keyed (k : Z) (valss : list (list SqlVal)) : list (list SqlVal) :=
  match valss with
  | [] => []
  | vals :: valss' => (SInt k :: vals) :: keyed (k + 1) valss'
  end.

(** A store after [CREATE TABLE IF NOT EXISTS name (cols)]. *)
Definition ensured (name : string) (cols : list string)
    (m : gmap string Table) : gmap string Table :=
  match m !! name with
  | Some _ => m
  | None => <[name := mkTable cols []]> m
  end.

(* ===================================================================== *)
(** * Facts about strings                                                 *)
(* ===================================================================== *)

Module StrFacts.

Lemma app_cons c s t : String c s +:+ t = String c (s +:+ t).
Proof. reflexivity. Qed.

Lemma app_nil_l s : "" +:+ s = s.
Proof. reflexivity. Qed.

Lemma app_nil_r s : s +:+ "" = s.
Proof. induction s as [|c s IH]; [done|]. by rewrite app_cons, IH. Qed.

Lemma app_assoc s t u : (s +:+ t) +:+ u = s +:+ t +:+ u.
Proof. induction s as [|c s IH]; [done|]. by rewrite !app_cons, IH. Qed.

Lemma length_app s t :
  String.length (s +:+ t) = String.length s + String.length t.
Proof. induction s as [|c s IH]; [done|]. rewrite app_cons. simpl. by rewrite IH. Qed.

Lemma app_inv_head s t u : s +:+ t = s +:+ u → t = u.
Proof.
  induction s as [|c s IH]; [done|]. rewrite !app_cons. intros [=]. auto.
Qed.

(** Two ways of cutting one text at the same position agree. *)
Lemma app_inj_length s t s' t' :
  s +:+ t = s' +:+ t' → String.length s = String.length s' →
  s = s' ∧ t = t'.
Proof.
  revert s'. induction s as [|c s IH]; intros [|c' s']; simpl; try done.
  rewrite !app_cons. intros [= -> H] [= Hl].
  destruct (IH _ H Hl) as [-> ->]. done.
Qed.

(** A shorter prefix of a text is a prefix of the longer one. *)
Lemma app_eq_shorter s t s' t' :
  s +:+ t = s' +:+ t' → String.length s ≤ String.length s' →
  ∃ m, s' = s +:+ m ∧ t = m +:+ t'.
Proof.
  revert s'. induction s as [|c s IH]; intros s' H Hl.
  - exists s'. done.
  - destruct s' as [|c' s']; simpl in Hl; [lia|].
    rewrite !app_cons in H. injection H as -> H.
    destruct (IH s' H ltac:(lia)) as (m & -> & ->).
    exists m. done.
Qed.

Lemma app_eq_nil s t : s +:+ t = "" → s = "" ∧ t = "".
Proof. destruct s; [done|]. rewrite app_cons. done. Qed.

Lemma split_nonempty sep s : Str.split sep s ≠ [].
Proof.
  destruct s as [|c s]; simpl; [done|].
  destruct (Ascii.eqb c sep); [done|]. by destruct (Str.split sep s).
Qed.

Lemma remove_absent c s : Str.mem c s = false → Str.remove c s = s.
Proof.
  induction s as [|x s IH]; simpl; [done|].
  destruct (Ascii.eqb x c); simpl; [done|]. intros H. by rewrite IH.
Qed.

End StrFacts.

(* ===================================================================== *)
(** * Facts about the matcher                                             *)
(* ===================================================================== *)

Module ReFacts.
Import StrFacts.

Section Matcher.
Variable ic : bool.

Lemma one_spec test s c p s' c' :
  (p, s', c') ∈ Re.one test s c ↔
  ∃ x, s = String x s' ∧ p = String x "" ∧ test x = true ∧ c' = c.
Proof.
  unfold Re.one. destruct s as [|x s0].
  - split; [by intros ?%elem_of_nil | by intros (? & ? & _)].
  - destruct (test x) eqn:Ht.
    + rewrite list_elem_of_singleton. split.
      * intros [= -> -> ->]. by exists x.
      * intros (y & [= -> ->] & -> & _ & ->). done.
    + split; [by intros ?%elem_of_nil|].
      intros (y & [= -> ->] & _ & Hy & _). congruence.
Qed.

(** Membership in the ways of a repetition, one round unfolded. *)
Lemma star_S step n s c w :
  w ∈ Re.star step (S n) s c ↔
  w = ("", s, c)
  ∨ ∃ p1 s1 c1 p2 s2 c2,
      (p1, s1, c1) ∈ step s c ∧ p1 ≠ ""
      ∧ (p2, s2, c2) ∈ Re.star step n s1 c1 ∧ w = (p1 +:+ p2, s2, c2).
Proof.
  simpl. rewrite elem_of_app, list_elem_of_singleton, list_elem_of_bind.
  split.
  - intros [([[p1 s1] c1] & Hw & H1) | ->]; [right | by left].
    destruct (decide (p1 = "")) as [|Hne]; [by apply elem_of_nil in Hw|].
    apply list_elem_of_bind in Hw as ([[p2 s2] c2] & Hw & H2).
    apply list_elem_of_singleton in Hw. by exists p1, s1, c1, p2, s2, c2.
  - intros [-> | (p1 & s1 & c1 & p2 & s2 & c2 & H1 & Hne & H2 & ->)];
      [by right | left].
    exists (p1, s1, c1). split; [|done].
    destruct (decide (p1 = "")); [done|].
    apply list_elem_of_bind. exists (p2, s2, c2). split; [|done].
    by apply list_elem_of_singleton.
Qed.

Lemma seq_spec (f g : string → Re.caps → list Re.way) s c w :
  w ∈ ('(p1, s1, c1) ← f s c; '(p2, s2, c2) ← g s1 c1; [(p1 +:+ p2, s2, c2)]) ↔
  ∃ p1 s1 c1 p2 s2 c2,
    (p1, s1, c1) ∈ f s c ∧ (p2, s2, c2) ∈ g s1 c1 ∧ w = (p1 +:+ p2, s2, c2).
Proof.
  rewrite list_elem_of_bind. split.
  - intros ([[p1 s1] c1] & Hw & H1).
    apply list_elem_of_bind in Hw as ([[p2 s2] c2] & Hw & H2).
    apply list_elem_of_singleton in Hw. by exists p1, s1, c1, p2, s2, c2.
  - intros (p1 & s1 & c1 & p2 & s2 & c2 & H1 & H2 & ->).
    exists (p1, s1, c1). split; [|done].
    apply list_elem_of_bind. exists (p2, s2, c2). split; [|done].
    by apply list_elem_of_singleton.
Qed.

Lemma star_sound step r :
  (∀ s c p s' c', (p, s', c') ∈ step s c → s = p +:+ s' ∧ lang ic r p) →
  ∀ fuel s c p s' c',
    (p, s', c') ∈ Re.star step fuel s c →
    s = p +:+ s' ∧ lang ic (Re.Star r) p.
Proof.
  intros Hstep. induction fuel as [|n IH]; intros s c p s' c' Hin.
  - apply list_elem_of_singleton in Hin as [= -> -> ->].
    split; [done | constructor].
  - apply star_S in Hin
      as [[= -> -> ->] | (p1 & s1 & c1 & p2 & s2 & c2 & H1 & Hne & H2 & [= -> -> ->])].
    + split; [done | constructor].
    + apply Hstep in H1 as [-> L1]. apply IH in H2 as [-> L2].
      split; [by rewrite app_assoc | by constructor].
Qed.

(** Every way the matcher lists consumes a prefix of the text that
    belongs to the language. *)
Lemma ways_sound r :
  ∀ s c p s' c',
    (p, s', c') ∈ Re.ways ic r s c → s = p +:+ s' ∧ lang ic r p.
Proof.
  induction r as [|a| |items|r1 IH1 r2 IH2|r IH|r IH|r IH|g r IH];
    intros s c p s' c' Hin; simpl in Hin.
  - apply list_elem_of_singleton in Hin as [= -> -> ->].
    split; [done | constructor].
  - apply one_spec in Hin as (x & -> & -> & Hx & _).
    split; [done | by constructor].
  - apply one_spec in Hin as (x & -> & -> & Hx & _).
    split; [done | by constructor].
  - apply one_spec in Hin as (x & -> & -> & Hx & _).
    split; [done | by constructor].
  - apply seq_spec in Hin
      as (p1 & s1 & c1 & p2 & s2 & c2 & H1 & H2 & [= -> -> ->]).
    apply IH1 in H1 as [-> L1]. apply IH2 in H2 as [-> L2].
    split; [by rewrite app_assoc | by constructor].
  - eapply star_sound; eauto.
  - apply seq_spec in Hin
      as (p1 & s1 & c1 & p2 & s2 & c2 & H1 & H2 & [= -> -> ->]).
    apply IH in H1 as [-> L1].
    apply (star_sound _ r IH) in H2 as [-> L2].
    split; [by rewrite app_assoc | by constructor].
  - apply elem_of_app in Hin as [Hin | Hin].
    + apply IH in Hin as [-> L]. split; [done | by constructor].
    + apply list_elem_of_singleton in Hin as [= -> -> ->].
      split; [done | constructor].
  - apply list_elem_of_fmap in Hin as ([[p0 s0] c0] & [= -> -> ->] & Hin).
    apply IH in Hin as [-> L]. split; [done | by constructor].
Qed.

Lemma star_mono step n n' s c w :
  n ≤ n' → w ∈ Re.star step n s c → w ∈ Re.star step n' s c.
Proof.
  revert n' s c w. induction n as [|n IH]; intros n' s c w Hle Hin.
  - apply list_elem_of_singleton in Hin as ->.
    destruct n'; [by apply list_elem_of_singleton | apply star_S; by left].
  - destruct n' as [|n']; [lia|].
    apply star_S in Hin as [-> | (p1 & s1 & c1 & p2 & s2 & c2 & H1 & Hne & H2 & ->)];
      apply star_S; [by left | right].
    exists p1, s1, c1, p2, s2, c2. repeat split; try done.
    apply IH; [lia | done].
Qed.

(** Every text of the language is one of the ways listed, whatever
    follows it. *)
Lemma ways_complete r p :
  lang ic r p →
  ∀ s' c, ∃ c', (p, s', c') ∈ Re.ways ic r (p +:+ s') c.
Proof.
  induction 1 as [|a x Hx|x Hx|items x Hx|r1 r2 p1 p2 _ IH1 _ IH2
                  |r|r p1 p2 Hne _ IH1 _ IH2|r p1 p2 _ IH1 _ IH2
                  |r|r p _ IH|g r p _ IH]; intros s' c; cbn [Re.ways].
  - exists c. by apply list_elem_of_singleton.
  - exists c. apply one_spec. by exists x.
  - exists c. apply one_spec. by exists x.
  - exists c. apply one_spec. by exists x.
  - destruct (IH1 (p2 +:+ s') c) as [c1 H1].
    destruct (IH2 s' c1) as [c2 H2].
    exists c2. apply seq_spec. exists p1, (p2 +:+ s'), c1, p2, s', c2.
    by rewrite app_assoc.
  - exists c. rewrite app_nil_l. destruct (String.length s');
      [by apply list_elem_of_singleton | apply star_S; by left].
  - destruct (IH1 (p2 +:+ s') c) as [c1 H1].
    destruct (IH2 s' c1) as [c2 H2]. cbn [Re.ways] in H2.
    exists c2. rewrite app_assoc.
    destruct p1 as [|x p1]; [done|]. rewrite app_cons.
    cbn [String.length]. apply star_S. right.
    exists (String x p1), (p2 +:+ s'), c1, p2, s', c2.
    repeat split; try done.
    eapply star_mono; [|exact H2]. rewrite !length_app. lia.
  - destruct (IH1 (p2 +:+ s') c) as [c1 H1].
    destruct (IH2 s' c1) as [c2 H2]. cbn [Re.ways] in H2.
    exists c2. apply seq_spec. exists p1, (p2 +:+ s'), c1, p2, s', c2.
    by rewrite app_assoc.
  - exists c. apply elem_of_app. right. by apply list_elem_of_singleton.
  - destruct (IH s' c) as [c' H']. exists c'. apply elem_of_app. by left.
  - destruct (IH s' c) as [c' H']. exists ((g, p) :: c').
    apply list_elem_of_fmap. by exists (p, s', c').
Qed.

(** Without a capturing group nothing is captured. *)
Lemma star_no_capture step :
  (∀ s c p s' c', (p, s', c') ∈ step s c → c' = c) →
  ∀ fuel s c p s' c', (p, s', c') ∈ Re.star step fuel s c → c' = c.
Proof.
  intros Hstep. induction fuel as [|n IH]; intros s c p s' c' Hin.
  - by apply list_elem_of_singleton in Hin as [= -> -> ->].
  - apply star_S in Hin
      as [[= -> -> ->] | (p1 & s1 & c1 & p2 & s2 & c2 & H1 & Hne & H2 & [= -> -> ->])];
      [done|].
    apply Hstep in H1 as ->. by apply IH in H2.
Qed.

Lemma ways_no_capture r :
  no_groups r = true →
  ∀ s c p s' c', (p, s', c') ∈ Re.ways ic r s c → c' = c.
Proof.
  induction r as [|a| |items|r1 IH1 r2 IH2|r IH|r IH|r IH|g r IH];
    simpl; intros Hg s c p s' c' Hin; try done.
  - by apply list_elem_of_singleton in Hin as [= -> -> ->].
  - by apply one_spec in Hin as (x & _ & _ & _ & ->).
  - by apply one_spec in Hin as (x & _ & _ & _ & ->).
  - by apply one_spec in Hin as (x & _ & _ & _ & ->).
  - apply andb_true_iff in Hg as [G1 G2].
    apply seq_spec in Hin
      as (p1 & s1 & c1 & p2 & s2 & c2 & H1 & H2 & [= -> -> ->]).
    apply (IH1 G1) in H1 as ->. by apply (IH2 G2) in H2.
  - eapply star_no_capture; [apply (IH Hg) | exact Hin].
  - apply seq_spec in Hin
      as (p1 & s1 & c1 & p2 & s2 & c2 & H1 & H2 & [= -> -> ->]).
    apply (IH Hg) in H1 as ->.
    eapply star_no_capture; [apply (IH Hg) | exact H2].
  - apply elem_of_app in Hin as [Hin | Hin]; [by apply (IH Hg) in Hin|].
    by apply list_elem_of_singleton in Hin as [= -> -> ->].
Qed.

End Matcher.

End ReFacts.

(* ===================================================================== *)
(** * The two count patterns                                              *)
(* ===================================================================== *)

Module CountFacts.
Import StrFacts ReFacts.

Ltac each_char x := destruct x as [[] [] [] [] [] [] [] []]; vm_compute; try done.

(** Under [re.IGNORECASE], the sets of the count group are these
    tests. *)
Lemma separators_class x :
  existsb (λ k, Re.class_match true k x)
    [Re.CDigit; Re.CChar ","; Re.CChar "."] = count_char x.
Proof. each_char x. Qed.

Lemma magnitude_class x :
  existsb (λ k, Re.class_match true k x) [Re.CChar "K"; Re.CChar "M"]
  = magnitude (String x "").
Proof. each_char x. Qed.

Lemma digit_is_count_char x : Str.is_digit x = true → count_char x = true.
Proof. unfold count_char. by intros ->. Qed.

Lemma count_char_not_space x : count_char x = true → x ≠ " "%char.
Proof. intros H ->. done. Qed.

Lemma magnitude_not_space x : magnitude (String x "") = true → x ≠ " "%char.
Proof. intros H ->. done. Qed.

Lemma lower_space x : Str.lower x = " "%char → x = " "%char.
Proof. each_char x. Qed.

Lemma char_match_lower a x :
  Re.char_match true a x = true ↔ Str.lower x = Str.lower a.
Proof. unfold Re.char_match. apply Ascii.eqb_eq. Qed.

Lemma str_forall_app test s t :
  str_forall test (s +:+ t) = str_forall test s && str_forall test t.
Proof.
  induction s as [|c s IH]; [done|].
  rewrite app_cons. simpl. by rewrite IH, andb_assoc.
Qed.

Lemma str_forall_impl (f g : ascii → bool) s :
  (∀ x, f x = true → g x = true) →
  str_forall f s = true → str_forall g s = true.
Proof.
  intros Hfg. induction s as [|c s IH]; simpl; [done|].
  intros [H1 H2]%andb_true_iff. by rewrite (Hfg _ H1), IH.
Qed.

(** The languages of the pieces of the count group. *)
Lemma lang_star_class ic r test s :
  (∀ p, lang ic r p ↔ ∃ x, p = String x "" ∧ test x = true) →
  lang ic (Re.Star r) s ↔ str_forall test s = true.
Proof.
  intros Hr. split.
  - remember (Re.Star r) as r0 eqn:E. induction 1; try done.
    injection E as ->.
    apply Hr in H0 as (x & -> & Hx). rewrite app_cons, app_nil_l. simpl.
    rewrite Hx. simpl. by apply IHlang2.
  - induction s as [|c s IH]; simpl; [constructor|].
    intros [H1 H2]%andb_true_iff.
    change (String c s) with (String c "" +:+ s).
    constructor; [done | | by apply IH]. apply Hr. by exists c.
Qed.

Lemma lang_Digit ic p :
  lang ic Re.Digit p ↔ ∃ x, p = String x "" ∧ Str.is_digit x = true.
Proof.
  split; [inversion 1; subst; eauto | intros (x & -> & Hx); by constructor].
Qed.

Lemma lang_Set ic items p :
  lang ic (Re.Set_ items) p ↔
  ∃ x, p = String x "" ∧ existsb (λ k, Re.class_match ic k x) items = true.
Proof.
  split; [inversion 1; subst; eauto | intros (x & -> & Hx); by constructor].
Qed.

Lemma lang_digits ic s :
  lang ic (Re.Plus Re.Digit) s ↔ s ≠ "" ∧ str_forall Str.is_digit s = true.
Proof.
  split.
  - inversion 1 as [| | | | | | |r p1 p2 H1 H2| | |]; subst.
    apply lang_Digit in H1 as (x & -> & Hx).
    apply (lang_star_class ic _ Str.is_digit) in H2; [|apply lang_Digit].
    rewrite app_cons, app_nil_l. simpl. by rewrite Hx, H2.
  - destruct s as [|c s]; intros [Hne H]; [done|]. simpl in H.
    apply andb_true_iff in H as [H1 H2].
    change (String c s) with (String c "" +:+ s). constructor.
    + by constructor.
    + by apply (lang_star_class ic _ Str.is_digit); [apply lang_Digit|].
Qed.

Lemma count_tail_digits s :
  str_forall Str.is_digit s = true → count_tail s = true.
Proof.
  induction s as [|c s IH]; simpl; [done|].
  intros [H1 H2]%andb_true_iff. destruct s; [done|].
  by rewrite (digit_is_count_char _ H1), IH.
Qed.

Lemma count_tail_app m d :
  str_forall count_char m = true → d ≠ "" →
  str_forall Str.is_digit d = true → count_tail (m +:+ d) = true.
Proof.
  intros Hm Hne Hd. induction m as [|c m IH].
  - by apply count_tail_digits.
  - simpl in Hm. apply andb_true_iff in Hm as [H1 H2].
    rewrite app_cons. simpl. destruct (m +:+ d) eqn:E.
    + apply app_eq_nil in E as [_ ->]. done.
    + rewrite H1. by apply IH.
Qed.

Lemma count_tail_inv s :
  count_tail s = true →
  s = "" ∨ ∃ m x, s = m +:+ String x ""
                  ∧ str_forall count_char m = true ∧ Str.is_digit x = true.
Proof.
  induction s as [|c s IH]; [by left|]. intros H. right.
  destruct s as [|c' s].
  - exists "", c. done.
  - simpl in H. apply andb_true_iff in H as [H1 H2].
    destruct (IH H2) as [|(m & x & -> & Hm & Hx)]; [done|].
    exists (String c m), x. simpl. by rewrite H1, Hm.
Qed.

(** [\d+(?:[\d,.]*\d+)?]: a digit first, a digit last, digits, commas
    and points between. *)
Lemma lang_count_body s :
  lang true
    (Re.Seq (Re.Plus Re.Digit)
       (Re.Opt (Re.Seq (Re.Star (Re.Set_ [Re.CDigit; Re.CChar ","; Re.CChar "."]))
                       (Re.Plus Re.Digit)))) s
  ↔ count_body s = true.
Proof.
  assert (Hset : ∀ p,
    lang true (Re.Set_ [Re.CDigit; Re.CChar ","; Re.CChar "."]) p ↔
    ∃ x, p = String x "" ∧ count_char x = true).
  { intros p. rewrite lang_Set. by setoid_rewrite separators_class. }
  split.
  - inversion 1 as [| | | |r1 r2 p1 p2 H1 H2| | | | | |]; subst.
    apply lang_digits in H1 as [Hne Hd].
    destruct p1 as [|c d]; [done|]. simpl in Hd.
    apply andb_true_iff in Hd as [Hc Hd].
    rewrite app_cons. simpl. rewrite Hc. simpl.
    inversion H2 as [| | | | | | | |r|r p H3|]; subst.
    + rewrite app_nil_r. by apply count_tail_digits.
    + inversion H3 as [| | | |r1 r2 m d2 H4 H5| | | | | |]; subst.
      apply (lang_star_class true _ count_char) in H4; [|done].
      apply lang_digits in H5 as [Hne2 Hd2].
      rewrite <- app_assoc. apply count_tail_app; [|done..].
      rewrite str_forall_app, H4, andb_true_r.
      eapply str_forall_impl; [apply digit_is_count_char | done].
  - destruct s as [|c t]; [done|]. simpl.
    intros [Hc Ht]%andb_true_iff.
    change (String c t) with (String c "" +:+ t). constructor.
    + apply lang_digits. simpl. by rewrite Hc.
    + destruct (count_tail_inv _ Ht) as [->|(m & x & -> & Hm & Hx)];
        [constructor|].
      apply lang_opt_take. constructor.
      * by apply (lang_star_class true _ count_char).
      * apply lang_digits. simpl. by rewrite Hx.
Qed.

Lemma lang_magnitude s :
  lang true (Re.Opt (Re.Set_ [Re.CChar "K"; Re.CChar "M"])) s
  ↔ magnitude s = true.
Proof.
  split.
  - inversion 1 as [| | | | | | | |r|r p H3|]; subst; [done|].
    apply lang_Set in H3 as (x & -> & Hx). by rewrite <- magnitude_class.
  - destruct s as [|x [|]]; [constructor | | done].
    intros H. apply lang_opt_take, lang_Set. exists x.
    by rewrite magnitude_class.
Qed.

Lemma lang_count n : lang true count_expr n ↔ is_count n.
Proof.
  unfold count_expr, is_count. split.
  - inversion 1 as [| | | |r1 r2 d p2 H1 H2| | | | | |]; subst.
    inversion H2 as [| | | |r1 r2 o k H3 H4| | | | | |]; subst.
    exists (d +:+ o), k. rewrite app_assoc. split; [done|].
    split; [|by apply lang_magnitude].
    apply lang_count_body. by constructor.
  - intros (body & suffix & -> & Hb & Hs).
    apply lang_count_body in Hb.
    inversion Hb as [| | | |r1 r2 d o H1 H2| | | | | |]; subst.
    rewrite app_assoc. constructor; [done|].
    constructor; [done | by apply lang_magnitude].
Qed.

(** A literal piece of pattern matches, under [re.IGNORECASE], the
    texts that agree with it once both are lowered. *)
Lemma lang_lit word w :
  lang true (Re.lit word) w ↔ lower_str w = lower_str word.
Proof.
  revert w. induction word as [|a word IH]; intros w.
  - simpl. split; [by inversion 1 | destruct w; [constructor | done]].
  - destruct word as [|b word].
    + simpl. split.
      * inversion 1 as [|a' x Hx| | | | | | | | |]; subst.
        apply char_match_lower in Hx. simpl. by rewrite Hx.
      * destruct w as [|x [|]]; simpl; try done.
        intros [= Hx]. constructor. by apply char_match_lower.
    + change (Re.lit (String a (String b word)))
        with (Re.Seq (Re.Chr a) (Re.lit (String b word))).
      split.
      * inversion 1 as [| | | |r1 r2 p1 p2 H1 H2| | | | | |]; subst.
        inversion H1 as [|a' x Hx| | | | | | | | |]; subst.
        apply char_match_lower in Hx. apply IH in H2.
        rewrite app_cons, app_nil_l.
        change (lower_str (String x p2))
          with (String (Str.lower x) (lower_str p2)).
        rewrite Hx, H2. done.
      * destruct w as [|x w]; [done|].
        change (lower_str (String x w))
          with (String (Str.lower x) (lower_str w)).
        change (lower_str (String a (String b word)))
          with (String (Str.lower a) (lower_str (String b word))).
        intros [= Hx Hw].
        change (String x w) with (String x "" +:+ w). constructor.
        -- constructor. by apply char_match_lower.
        -- by apply IH.
Qed.

Lemma no_groups_lit word : no_groups (Re.lit word) = true.
Proof.
  induction word as [|a word IH]; [done|].
  destruct word; [done|].
  change (no_groups (Re.Chr a) && no_groups (Re.lit (String a0 word)) = true).
  by rewrite IH.
Qed.

(** A count holds no space, so the space after it tells where it
    ends. *)
Lemma count_tail_no_space s :
  count_tail s = true → Str.mem " " s = false.
Proof.
  induction s as [|c s IH]; [done|]. intros H.
  assert (count_char c = true ∧ count_tail s = true) as [Hc Hs].
  { destruct s; simpl in H.
    - split; [by apply digit_is_count_char | done].
    - by apply andb_true_iff in H. }
  simpl. rewrite (IH Hs), orb_false_r.
  apply Ascii.eqb_neq. by apply count_char_not_space.
Qed.

Lemma mem_app c s t : Str.mem c (s +:+ t) = Str.mem c s || Str.mem c t.
Proof.
  induction s as [|x s IH]; [done|].
  rewrite app_cons. simpl. by rewrite IH, orb_assoc.
Qed.

Lemma is_count_no_space n : is_count n → Str.mem " " n = false.
Proof.
  intros (body & suffix & -> & Hb & Hs). rewrite mem_app.
  destruct body as [|c body]; [done|]. simpl in Hb.
  apply andb_true_iff in Hb as [Hc Hb].
  simpl. rewrite (count_tail_no_space _ Hb), orb_false_r.
  replace (Ascii.eqb c " ") with false; simpl.
  - destruct suffix as [|k [|]]; try done. simpl. rewrite orb_false_r.
    apply Ascii.eqb_neq. by apply magnitude_not_space.
  - symmetry. apply Ascii.eqb_neq, count_char_not_space.
    by apply digit_is_count_char.
Qed.

Lemma until_space a b x y :
  Str.mem " " a = false → Str.mem " " b = false →
  a +:+ String " " x = b +:+ String " " y → a = b.
Proof.
  revert b. induction a as [|c a IH]; intros [|d b]; simpl; intros Ha Hb; try done.
  - rewrite app_nil_l, app_cons. intros [= <- _].
    by rewrite Ascii.eqb_refl in Hb.
  - rewrite app_nil_l, app_cons. intros [= -> _].
    by rewrite Ascii.eqb_refl in Ha.
  - apply orb_false_iff in Ha as [_ Ha]. apply orb_false_iff in Hb as [_ Hb].
    rewrite !app_cons. intros [= -> H]. f_equal. by apply IH.
Qed.

End CountFacts.

Module SearchFacts.
Import StrFacts ReFacts CountFacts.

Lemma search_none p s :
  Re.search_str p s = None →
  ∀ pre suf, s = pre +:+ suf →
    Re.ways (Re.ignorecase p) (Re.expr p) suf [] = [].
Proof.
  induction s as [|x s IH]; simpl.
  - destruct (Re.ways _ _ "" []) as [|[[w r] c] l] eqn:E; [|done].
    intros _ pre suf H. symmetry in H.
    apply app_eq_nil in H as [_ ->]. done.
  - destruct (Re.ways _ _ (String x s) []) as [|[[w r] c] l] eqn:E; [|done].
    intros Hs [|y pre] suf H.
    + rewrite app_nil_l in H. by subst.
    + rewrite app_cons in H. injection H as _ H. by eapply IH.
Qed.

Lemma search_some p s m :
  Re.search_str p s = Some m →
  ∃ pre rest,
    s = pre +:+ Re.whole m +:+ rest
    ∧ (Re.whole m, rest, Re.groups m)
        ∈ Re.ways (Re.ignorecase p) (Re.expr p) (Re.whole m +:+ rest) []
    ∧ ∀ pre' suf', s = pre' +:+ suf' →
        String.length pre' < String.length pre →
        Re.ways (Re.ignorecase p) (Re.expr p) suf' [] = [].
Proof.
  assert (Hhead : ∀ s w r c l,
    Re.ways (Re.ignorecase p) (Re.expr p) s [] = (w, r, c) :: l →
    ∃ pre rest,
      s = pre +:+ w +:+ rest
      ∧ (w, rest, c) ∈ Re.ways (Re.ignorecase p) (Re.expr p) (w +:+ rest) []
      ∧ ∀ pre' suf', s = pre' +:+ suf' →
          String.length pre' < String.length pre →
          Re.ways (Re.ignorecase p) (Re.expr p) suf' [] = []).
  { intros s0 w r c l E. exists "", r.
    assert (Hin : (w, r, c) ∈ Re.ways (Re.ignorecase p) (Re.expr p) s0 []).
    { rewrite E. apply elem_of_cons. by left. }
    destruct (ways_sound _ _ _ _ _ _ _ Hin) as [-> _].
    repeat split; [done|]. simpl. intros; lia. }
  induction s as [|x s IH]; simpl.
  - destruct (Re.ways _ _ "" []) as [|[[w r] c] l] eqn:E; [done|].
    intros [= <-]. by eapply Hhead.
  - destruct (Re.ways _ _ (String x s) []) as [|[[w r] c] l] eqn:E.
    + intros Hs. destruct (IH Hs) as (pre & rest & -> & Hin & Hmin).
      exists (String x pre), rest. repeat split; [done|].
      intros [|y pre'] suf' H Hl.
      * rewrite app_nil_l in H. by subst.
      * rewrite !app_cons in H. injection H as _ H.
        apply (Hmin pre'); [done | simpl in Hl; lia].
    + intros [= <-]. by eapply Hhead.
Qed.

Section OnePattern.
Variable word : string.

Lemma count_ways_sound w rest c s :
  (w, rest, c) ∈ Re.ways true (count_word word) s [] →
  ∃ n wd,
    s = n +:+ String " " wd +:+ rest
    ∧ is_count n ∧ lower_str wd = lower_str word ∧ c = [(1, n)].
Proof.
  intros Hin.
  apply (seq_spec (Re.ways true count_group)
           (Re.ways true (Re.lit (String " " word)))) in Hin
    as (p1 & s1 & c1 & p2 & s2 & c2 & H1 & H2 & [= -> -> ->]).
  unfold count_group in H1. cbn [Re.ways] in H1.
  apply list_elem_of_fmap in H1 as ([[n s0] c0] & [= -> -> ->] & H1).
  pose proof (ways_no_capture true count_expr eq_refl _ _ _ _ _ H1) as ->.
  apply ways_sound in H1 as [-> Hn]. apply lang_count in Hn.
  pose proof (ways_no_capture _ _ (no_groups_lit _) _ _ _ _ _ H2) as ->.
  apply ways_sound in H2 as [-> Hw]. apply lang_lit in Hw.
  destruct p2 as [|x wd]; [done|].
  change (String (Str.lower x) (lower_str wd)
          = String " " (lower_str word)) in Hw.
  injection Hw as Hx Hw. apply lower_space in Hx as ->.
  exists n, wd. by rewrite app_cons.
Qed.

Lemma count_ways_complete n wd rest :
  is_count n → lower_str wd = lower_str word →
  ∃ c, (n +:+ String " " wd, rest, c)
         ∈ Re.ways true (count_word word) (n +:+ String " " wd +:+ rest) [].
Proof.
  intros Hn Hw.
  assert (L : lang true (count_word word) (n +:+ String " " wd)).
  { constructor; [constructor; by apply lang_count|].
    apply lang_lit. simpl. by rewrite Hw. }
  destruct (ways_complete _ _ _ L rest []) as [c Hc].
  exists c. by rewrite app_assoc, app_cons in Hc.
Qed.

Lemma occurs_found text pre n :
  occurs_at word text pre n → Re.search_str (count_pattern word) text ≠ None.
Proof.
  intros (w & post & -> & Hn & Hw) Hnone.
  destruct (count_ways_complete n w post Hn Hw) as [c Hc].
  pose proof (search_none _ _ Hnone pre _ eq_refl) as E.
  unfold count_pattern in E. cbn [Re.ignorecase Re.expr] in E.
  change (String " " w +:+ post) with (" " +:+ w +:+ post) in Hc.
  rewrite E in Hc. by apply elem_of_nil in Hc.
Qed.

Lemma found_first text m :
  Re.search_str (count_pattern word) text = Some m →
  ∃ n, Re.group m 1 = VStr n ∧ first_occurrence word text n.
Proof.
  intros Hs. apply search_some in Hs as (pre & rest & Ht & Hin & Hmin).
  unfold count_pattern in Hin, Hmin. cbn [Re.ignorecase Re.expr] in Hin, Hmin.
  apply count_ways_sound in Hin as (n & wd & E & Hn & Hw & Hc).
  exists n. split; [unfold Re.group; by rewrite Hc|].
  exists pre. split.
  - exists wd, rest. by rewrite Ht, E.
  - intros pre' n' (w' & post' & Ht' & Hn' & Hw').
    destruct (decide (String.length pre' < String.length pre)) as [Hl|]; [|lia].
    destruct (count_ways_complete n' w' post' Hn' Hw') as [c' Hc'].
    change (String " " w' +:+ post') with (" " +:+ w' +:+ post') in Hc'.
    rewrite (Hmin pre' _ Ht' Hl) in Hc'. by apply elem_of_nil in Hc'.
Qed.

Lemma first_occurrence_unique text n1 n2 :
  first_occurrence word text n1 → first_occurrence word text n2 → n1 = n2.
Proof.
  intros (pre1 & O1 & M1) (pre2 & O2 & M2).
  pose proof (M1 _ _ O2). pose proof (M2 _ _ O1).
  destruct O1 as (w1 & post1 & E1 & C1 & _).
  destruct O2 as (w2 & post2 & E2 & C2 & _).
  rewrite E1 in E2.
  apply app_inj_length in E2 as [_ E2]; [|lia].
  eapply until_space; [by apply is_count_no_space..|exact E2].
Qed.

(** What a search for the pattern hands to [group(1)]. *)
Lemma found_spec text :
  let v := match Re.search_str (count_pattern word) text with
           | Some m => Re.group m 1
           | None => VNone
           end in
  (∀ n, v = VStr n ↔ first_occurrence word text n)
  ∧ (v = VNone ↔ ∀ pre n, ¬ occurs_at word text pre n).
Proof.
  destruct (Re.search_str (count_pattern word) text) as [m|] eqn:E; simpl.
  - destruct (found_first _ _ E) as (n0 & -> & F0). split.
    + intros n. split; [by intros [= <-]|].
      intros F. f_equal. by eapply first_occurrence_unique.
    + split; [done|]. intros Hno. destruct F0 as (pre & O & _).
      by destruct (Hno _ _ O).
  - split.
    + intros n. split; [done|]. intros (pre & O & _).
      by destruct (occurs_found _ _ _ O).
    + split; [|done]. intros _ pre n O.
      by destruct (occurs_found _ _ _ O).
Qed.

End OnePattern.

End SearchFacts.

(* ===================================================================== *)
(** * Facts about the extractors and normalizers                          *)
(* ===================================================================== *)

Module NormalizerFacts.
Import StrFacts.

Lemma extract_ok link seg :
  Str.split "/" link !! 3 = Some seg →
  extract_author_post_id (VStr link)
  = Ok (Str.remove "@" seg,
        "https://www.tiktok.com/@" +:+ Str.remove "@" seg,
        List.last (Str.split "/" link) "").
Proof. intros H. unfold extract_author_post_id. by rewrite H. Qed.

Lemma extract_short link :
  length (Str.split "/" link) < 4 →
  extract_author_post_id (VStr link) = Raise IndexError.
Proof.
  intros H. unfold extract_author_post_id.
  rewrite (lookup_ge_None_2 _ 3); [done | lia].
Qed.

Lemma conforming_profile link :
  conforming link = true →
  ∃ seg, Str.split "/" link !! 3 = Some seg ∧ Str.starts_with "@" seg = true.
Proof.
  unfold conforming.
  destruct (Str.split "/" link) as [|s0 [|s1 [|s2 [|s3 [|s4 l]]]]]; try done.
  intros H. exists s3. split; [done|].
  by apply andb_true_iff in H as [_ H].
Qed.

Lemma likes_comments_total sn :
  ∃ likes comments, extract_likes_comments (VStr sn) = Ok (likes, comments).
Proof. eexists _, _. reflexivity. Qed.

(** The tuple of the SearchResult normalizer when both extractors
    return. *)
Lemma search_results_ok entry sn link seg likes comments :
  get entry "snippet" (VStr "") = VStr sn →
  get entry "link" (VStr "") = VStr link →
  Str.split "/" link !! 3 = Some seg →
  extract_likes_comments (VStr sn) = Ok (likes, comments) →
  get_items_from_search_results entry
  = Ok [ get entry "source" VNone; get entry "title" VNone;
         get entry "snippet" VNone; get entry "link" VNone;
         get entry "thumbnail" VNone; get entry "video_link" VNone;
         highlighted_words entry; get entry "displayed_link" VNone;
         VStr (py_format (get entry "title" (VStr "")) +:+ " " +:+ sn);
         likes; comments;
         VStr (Str.remove "@" seg);
         VStr ("https://www.tiktok.com/@" +:+ Str.remove "@" seg);
         VStr (List.last (Str.split "/" link) "") ].
Proof.
  intros Hs Hl Hseg Hlc. unfold get_items_from_search_results.
  rewrite Hs, Hl, Hlc, (extract_ok _ _ Hseg). reflexivity.
Qed.

(** The normalizer returns only for a string snippet and a link of at
    least four segments. *)
Lemma search_results_inv entry t :
  get_items_from_search_results entry = Ok t →
  ∃ sn link seg,
    get entry "snippet" (VStr "") = VStr sn
    ∧ get entry "link" (VStr "") = VStr link
    ∧ Str.split "/" link !! 3 = Some seg.
Proof.
  unfold get_items_from_search_results.
  destruct (get entry "snippet" (VStr "")) as [|sn|]; try done.
  destruct (likes_comments_total sn) as (likes & comments & ->).
  destruct (get entry "link" (VStr "")) as [|link|]; try done.
  destruct (Str.split "/" link !! 3) as [seg|] eqn:E.
  - intros _. by exists sn, link, seg.
  - unfold extract_author_post_id. by rewrite E.
Qed.

Lemma images_results_ok entry link seg :
  get entry "link" (VStr "") = VStr link →
  Str.split "/" link !! 3 = Some seg →
  get_items_from_images_results entry
  = Ok [ get entry "source" VNone; get entry "title" VNone;
         get entry "link" VNone; get entry "thumbnail" VNone;
         VStr (Str.remove "@" seg);
         VStr ("https://www.tiktok.com/@" +:+ Str.remove "@" seg);
         VStr (List.last (Str.split "/" link) "") ].
Proof.
  intros Hl Hseg. unfold get_items_from_images_results.
  rewrite Hl, (extract_ok _ _ Hseg). reflexivity.
Qed.

Lemma get_absent entry key dflt : entry !! key = None → get entry key dflt = dflt.
Proof. unfold get. by intros ->. Qed.

Lemma get_present entry key dflt v :
  entry !! key = Some v → get entry key dflt = v.
Proof. unfold get. by intros ->. Qed.

Lemma highlighted_words_absent entry :
  entry !! "snippet_highlighted_words" = None → highlighted_words entry = VNone.
Proof. intros H. unfold highlighted_words. by rewrite (get_absent _ _ _ H). Qed.

End NormalizerFacts.

(* ===================================================================== *)
(** * Facts about the manager                                             *)
(* ===================================================================== *)

Module ManagerFacts.

(** What an ensure operation does, in one equation. *)
Lemma create_table_spec name cols w :
  create_table name cols w
  = match store w with
    | Some d =>
        (set_store (match d !! name with
                    | Some _ => d
                    | None => <[name := mkTable cols []]> d
                    end) w, Ok ())
    | None =>
        (print "Failed to create the database connection."
           (print "An error occurred: unable to open database file" w), Ok ())
    end.
Proof.
  unfold create_table, create_sql_connection, connect.
  destruct (store w) as [d|]; [|done].
  unfold create_table_if_not_exists. simpl.
  by destruct (d !! name).
Qed.

(** Distinct tables are exported to distinct files. *)
Lemma csv_path_inj out t1 t2 :
  out +:+ "/" +:+ t1 +:+ ".csv" = out +:+ "/" +:+ t2 +:+ ".csv" →
  t1 +:+ ".csv" = t2 +:+ ".csv".
Proof.
  intros H. apply StrFacts.app_inv_head in H.
  change ("/" +:+ ?x) with (String "/" x) in H. by injection H.
Qed.

Lemma append_rows_columns cols valss : ∀ t,
  columns (append_rows t cols valss) = columns t.
Proof.
  induction valss as [|v valss IH]; intros t; simpl; [done|].
  by rewrite IH.
Qed.

(** Appending keeps what was there and adds one row per value list. *)
Lemma append_rows_rows cols valss : ∀ t,
  ∃ news, rows (append_rows t cols valss) = rows t ++ news
          ∧ length news = length valss.
Proof.
  induction valss as [|v valss IH]; intros t; simpl.
  - exists []. by rewrite app_nil_r.
  - destruct (IH (mkTable (columns t) (rows t ++ [new_row t cols v])))
      as (news & -> & Hlen).
    exists (new_row t cols v :: news). simpl.
    by rewrite <- app_assoc, Hlen.
Qed.

Section OneStatement.
Variables (table : string) (cols : list string)
          (items : gmap string Value → result (list Value)).
Hypothesis arity :
  ∀ entry params, items entry = Ok params → length params = length cols.

Lemma insert_compiles conn t params :
  pending conn !! table = Some t →
  Forall (λ c, c ∈ columns t) cols →
  length params = length cols →
  insert table cols params conn
  = vals ← bind_parameters 1 params;
    Ok (mkConn (committed conn)
          (<[table := mkTable (columns t) (rows t ++ [new_row t cols vals])]>
             (pending conn))).
Proof.
  intros Ht Hcols Hlen. unfold insert. rewrite Ht.
  destruct (list_find _ cols) as [[i c]|] eqn:E.
  - apply list_find_Some in E as (Hc & Hbad & _).
    apply bool_decide_unpack in Hbad.
    rewrite Forall_forall in Hcols.
    destruct Hbad. apply Hcols. by eapply list_elem_of_lookup_2.
  - by rewrite bool_decide_eq_true_2.
Qed.

(** The statement of one record against a table that has the columns
    is what its binding makes it. *)
Lemma insert_bound conn t entry :
  pending conn !! table = Some t →
  Forall (λ c, c ∈ columns t) cols →
  (params ← items entry; insert table cols params conn)
  = vals ← bound items entry;
    Ok (mkConn (committed conn)
          (<[table := mkTable (columns t) (rows t ++ [new_row t cols vals])]>
             (pending conn))).
Proof.
  intros Ht Hcols. unfold bound.
  destruct (items entry) as [params|e] eqn:E; [|done]. simpl.
  by rewrite (insert_compiles _ _ _ Ht Hcols (arity _ _ E)).
Qed.

(** Records that bind are inserted and committed one after the
    other; the loop then goes on with what follows. *)
Lemma insert_rows_good good valss :
  Forall2 (λ entry vals, bound items entry = Ok vals) good valss →
  ∀ d t rest,
    d !! table = Some t →
    Forall (λ c, c ∈ columns t) cols →
    insert_rows table cols items (good ++ rest) (mkConn d d)
    = insert_rows table cols items rest
        (mkConn (<[table := append_rows t cols valss]> d)
                (<[table := append_rows t cols valss]> d)).
Proof.
  induction 1 as [|entry vals good valss Hb _ IH]; intros d t rest Ht Hcols.
  - simpl. by rewrite (insert_id _ _ _ Ht).
  - cbn [app insert_rows].
    rewrite (insert_bound (mkConn d d) t entry Ht Hcols), Hb. simpl.
    unfold commit. simpl.
    rewrite (IH _ (mkTable (columns t) (rows t ++ [new_row t cols vals])));
      [|by rewrite lookup_insert_eq|done].
    by rewrite insert_insert_eq.
Qed.

(** A batch whose records bind up to one that raises. *)
Lemma insert_into_stops w d t good valss bad rest e :
  store w = Some d →
  d !! table = Some t →
  Forall (λ c, c ∈ columns t) cols →
  Forall2 (λ entry vals, bound items entry = Ok vals) good valss →
  bound items bad = Raise e →
  insert_into table cols items (good ++ bad :: rest) w
  = finish (λ e, "An error occurred while inserting data: " +:+ e)
      (mkConn (<[table := append_rows t cols valss]> d)
              (<[table := append_rows t cols valss]> d))
      (Raise e) w.
Proof.
  intros Hd Ht Hcols Hgood Hbad.
  unfold insert_into, create_sql_connection, connect. rewrite Hd.
  rewrite (insert_rows_good _ _ Hgood _ _ _ Ht Hcols).
  cbn [insert_rows].
  rewrite (insert_bound _ (append_rows t cols valss) bad);
    [|apply lookup_insert_eq|by rewrite append_rows_columns].
  by rewrite Hbad.
Qed.

End OneStatement.

Lemma search_results_arity entry params :
  get_items_from_search_results entry = Ok params →
  length params = length search_results_fields.
Proof.
  intros H.
  destruct (NormalizerFacts.search_results_inv _ _ H)
    as (sn & link & seg & Hs & Hl & Hseg).
  destruct (NormalizerFacts.likes_comments_total sn) as (l & c & Hlc).
  rewrite (NormalizerFacts.search_results_ok _ _ _ _ _ _ Hs Hl Hseg Hlc) in H.
  by injection H as <-.
Qed.

Lemma images_results_arity entry params :
  get_items_from_images_results entry = Ok params →
  length params = length images_results_fields.
Proof.
  unfold get_items_from_images_results.
  destruct (extract_author_post_id _) as [[[a la] p]|e]; [|done].
  by intros [= <-].
Qed.

Lemma related_content_arity entry params :
  get_items_from_related_content entry = Ok params →
  length params = length related_content_fields.
Proof. by intros [= <-]. Qed.

End ManagerFacts.

(* ===================================================================== *)
(** * The embedding on concrete inputs                                    *)
(* ===================================================================== *)

Module Checks.

Example full_entry_tuple :
  get_items_from_search_results full_entry
  = Ok [ VStr "TikTok"; VStr "Dance"; VStr "1.2K Likes, 340 Comments";
         VStr "https://www.tiktok.com/@jane.doe/video/12345";
         VStr "t.jpg"; VStr "v.mp4"; VStr "dance, clip";
         VStr "www.tiktok.com"; VStr "Dance 1.2K Likes, 340 Comments";
         VStr "1.2K"; VStr "340"; VStr "jane.doe";
         VStr "https://www.tiktok.com/@jane.doe"; VStr "12345" ].
Proof. by vm_compute. Qed.

(** The count needs exactly one space before the word; what follows
    the word does not matter; the leftmost occurrence wins. *)
Example no_space_no_match :
  extract_likes_comments (VStr "12Likes and 5KM Likes") = Ok (VNone, VNone).
Proof. by vm_compute. Qed.

Example two_spaces_no_match :
  extract_likes_comments (VStr "12  Likes 7 Likesx") = Ok (VStr "7", VNone).
Proof. by vm_compute. Qed.

Example leftmost_wins :
  extract_likes_comments (VStr "1..2 likes 3,400 comments 9 Likes")
  = Ok (VStr "1..2", VStr "3,400").
Proof. by vm_compute. Qed.

Example null_title_is_formatted :
  get_items_from_search_results (<["title" := VNone]> link_only_entry)
  = Ok [ VNone; VNone; VNone;
         VStr "https://www.tiktok.com/@jane.doe/video/12345"; VNone; VNone;
         VNone; VNone; VStr "None "; VNone; VNone; VStr "jane.doe";
         VStr "https://www.tiktok.com/@jane.doe"; VStr "12345" ].
Proof. by vm_compute. Qed.

Example list_title_is_formatted :
  py_format (VList ["a"; "b c"; "d\e"]) = "['a', 'b c', 'd\\e']".
Proof. by vm_compute. Qed.

(** A record whose link cannot be taken apart ends the batch with an
    exception that [except Error] does not catch; the record before it
    stays. *)
Example malformed_link_leaves_the_call :
  (insert_search_results [full_entry; short_link_entry; link_only_entry]
     empty_tables_world).2 = Raise IndexError
  ∧ (d ← store (insert_search_results
                  [full_entry; short_link_entry; link_only_entry]
                  empty_tables_world).1;
     t ← d !! "query_search_results";
     column "link" t)
    = Some [SText "https://www.tiktok.com/@jane.doe/video/12345"].
Proof. split; by vm_compute. Qed.

Example construction_creates_tables :
  store (init "out" (mkWorld (Some ∅) ∅ [])).1 = Some empty_tables_store.
Proof. by vm_compute. Qed.

End Checks.

(* ===================================================================== *)
(** * Facts about splitting                                               *)
(* ===================================================================== *)

Module SplitFacts.
Import StrFacts.

Lemma mem_occurrences c s : Str.mem c s = false ↔ occurrences c s = 0.
Proof.
  induction s as [|x s IH]; simpl; [done|].
  destruct (Ascii.eqb x c); simpl; [split; [done | lia]|]. exact IH.
Qed.

Lemma split_length sep s :
  length (Str.split sep s) = S (occurrences sep s).
Proof.
  induction s as [|x s IH]; simpl; [done|].
  destruct (Ascii.eqb x sep); simpl; [by rewrite IH|].
  destruct (Str.split sep s); simpl in *; lia.
Qed.

Lemma split_clean sep s : Str.mem sep s = false → Str.split sep s = [s].
Proof.
  induction s as [|x s IH]; simpl; [done|].
  destruct (Ascii.eqb x sep); simpl; [done|]. intros H. by rewrite (IH H).
Qed.

(** Before the first separator comes the first segment. *)
Lemma split_app_sep sep a b :
  Str.mem sep a = false →
  Str.split sep (a +:+ String sep b) = a :: Str.split sep b.
Proof.
  induction a as [|x a IH].
  - intros _. rewrite app_nil_l. simpl. by rewrite Ascii.eqb_refl.
  - simpl. destruct (Ascii.eqb x sep) eqn:E; simpl; [done|]. intros H.
    by rewrite (IH H).
Qed.

Lemma split_segments_clean sep s :
  Forall (λ seg, Str.mem sep seg = false) (Str.split sep s).
Proof.
  induction s as [|x s IH]; simpl; [by repeat constructor|].
  destruct (Ascii.eqb x sep) eqn:E; [by constructor|].
  destruct (Str.split sep s) as [|seg segs]; [by repeat constructor; simpl; rewrite E|].
  inversion IH as [|? ? H1 H2]; subst. constructor; [|done].
  simpl. by rewrite E.
Qed.

(** After the last separator comes the last segment. *)
Lemma split_last_suffix sep s :
  1 ≤ occurrences sep s →
  ∃ pre, s = pre +:+ String sep (List.last (Str.split sep s) "").
Proof.
  induction s as [|x s IH]; simpl; [lia|].
  destruct (Ascii.eqb x sep) eqn:E; simpl.
  - intros _. apply Ascii.eqb_eq in E as ->.
    destruct (occurrences sep s) as [|n] eqn:Hn.
    + apply mem_occurrences in Hn. rewrite (split_clean _ _ Hn).
      by exists "".
    + destruct IH as [pre Hpre]; [lia|].
      exists (String sep pre). rewrite app_cons.
      pose proof (split_nonempty sep s).
      destruct (Str.split sep s) as [|seg segs]; [done|].
      change (List.last ("" :: seg :: segs) "")
        with (List.last (seg :: segs) "").
      by rewrite <- Hpre.
  - intros Hocc. destruct (IH Hocc) as [pre Hpre].
    exists (String x pre). rewrite app_cons.
    pose proof (split_length sep s) as Hlen.
    destruct (Str.split sep s) as [|seg [|seg' segs]]; simpl in Hlen; try lia.
    change (List.last (String x seg :: seg' :: segs) "")
      with (List.last (seg' :: segs) "").
    change (List.last (seg :: seg' :: segs) "")
      with (List.last (seg' :: segs) "") in Hpre.
    by rewrite <- Hpre.
Qed.

Lemma mem_remove c s : Str.mem c (Str.remove c s) = false.
Proof.
  induction s as [|x s IH]; simpl; [done|].
  destruct (Ascii.eqb x c) eqn:E; simpl; [done|]. by rewrite E, IH.
Qed.

Lemma mem_remove_other c d s :
  Str.mem d s = false → Str.mem d (Str.remove c s) = false.
Proof.
  induction s as [|x s IH]; simpl; [done|].
  intros [H1 H2]%orb_false_iff.
  destruct (Ascii.eqb x c); simpl; [by apply IH|]. by rewrite H1, IH.
Qed.

End SplitFacts.

Module OutcomeFacts.

(** A string link either has too few slashes and raises, or returns. *)
Lemma extract_cases (l : string) :
  extract_author_post_id (VStr l) = Raise IndexError ∧ occurrences "/" l < 3
  ∨ (∃ r, extract_author_post_id (VStr l) = Ok r) ∧ 3 ≤ occurrences "/" l.
Proof.
  pose proof (SplitFacts.split_length "/" l) as Hlen.
  destruct (decide (occurrences "/" l < 3)) as [Hlt|Hge].
  - left. split; [apply NormalizerFacts.extract_short; lia | done].
  - right.
    destruct (lookup_lt_is_Some_2 (Str.split "/" l) 3 ltac:(lia)) as [seg Hseg].
    rewrite (NormalizerFacts.extract_ok _ _ Hseg). split; [eauto | lia].
Qed.

(** A count begins with a digit. *)
Lemma occurrence_has_digit word text pre n :
  occurs_at word text pre n →
  str_forall (λ c, negb (Str.is_digit c)) text = false.
Proof.
  intros (w & post & -> & (body & suffix & -> & Hb & _) & _).
  apply not_true_is_false. intros H.
  rewrite !CountFacts.str_forall_app in H.
  destruct body as [|c body]; [done|]. simpl in Hb, H.
  apply andb_true_iff in Hb as [Hc _]. rewrite Hc in H. simpl in H.
  by rewrite andb_false_r in H.
Qed.

End OutcomeFacts.

(* ===================================================================== *)
(** * Facts about batches                                                 *)
(* ===================================================================== *)

Module BatchFacts.

Lemma bind_parameters_raises i params e :
  bind_parameters i params = Raise e → ∃ msg, e = SqliteError msg.
Proof.
  revert i. induction params as [|v params IH]; intros i; simpl; [done|].
  destruct v as [|s|l].
  - destruct (bind_parameters (S i) params) eqn:E; [done|].
    intros [= <-]. by eapply IH.
  - destruct (bind_parameters (S i) params) eqn:E; [done|].
    intros [= <-]. by eapply IH.
  - intros [= <-]. eauto.
Qed.

Lemma insert_raises name cols params conn e :
  insert name cols params conn = Raise e → ∃ msg, e = SqliteError msg.
Proof.
  unfold insert. destruct (pending conn !! name) as [t|]; [|intros [= <-]; eauto].
  destruct (list_find _ cols) as [[i c]|]; [intros [= <-]; eauto|].
  case_bool_decide; [|intros [= <-]; eauto].
  destruct (bind_parameters 1 params) eqn:E; [done|].
  intros [= <-]. by eapply bind_parameters_raises.
Qed.

(** A statement that succeeds appends one row to its table and touches
    nothing else. *)
Lemma insert_returns name cols params d conn' :
  insert name cols params (mkConn d d) = Ok conn' →
  ∃ t vals,
    d !! name = Some t
    ∧ bind_parameters 1 params = Ok vals
    ∧ conn' = mkConn d
        (<[name := mkTable (columns t) (rows t ++ [new_row t cols vals])]> d).
Proof.
  unfold insert. simpl. destruct (d !! name) as [t|]; [|done].
  destruct (list_find _ cols) as [[i c]|]; [done|].
  case_bool_decide; [|done].
  destruct (bind_parameters 1 params) as [vals|] eqn:E; [|done].
  intros [= <-]. by exists t, vals.
Qed.

Section OneStatement.
Variables (table : string) (cols : list string)
          (items : gmap string Value → result (list Value)).

(** Whatever the batch, the loop leaves a connection without pending
    changes, the other tables as they were, and the rows of its own
    table with at most one more row per record after them; and it
    ends either normally, or with the exception of a normalizer, or
    with an [sqlite3.Error]. *)
Lemma insert_rows_any data : ∀ d conn' r,
  insert_rows table cols items data (mkConn d d) = (conn', r) →
  ∃ d',
    conn' = mkConn d' d'
    ∧ (∀ name, name ≠ table → d' !! name = d !! name)
    ∧ (d !! table = None → d' !! table = None)
    ∧ (∀ t, d !! table = Some t →
         ∃ news, d' !! table = Some (mkTable (columns t) (rows t ++ news))
                 ∧ length news ≤ length data)
    ∧ (∀ e, r = Raise e →
         (∃ entry, entry ∈ data ∧ items entry = Raise e)
         ∨ ∃ msg, e = SqliteError msg).
Proof.
  induction data as [|entry data IH]; intros d conn' r; simpl.
  - intros [= <- <-]. exists d. split_and!; try done.
    intros t Ht. exists []. rewrite app_nil_r. split; [by destruct t | done].
  - destruct (items entry) as [params|e0] eqn:Ei; simpl.
    + destruct (insert table cols params (mkConn d d)) as [conn1|e1] eqn:Eins.
      * apply insert_returns in Eins as (t & vals & Ht & _ & ->).
        unfold commit. simpl. intros Hrows.
        apply IH in Hrows as (d' & -> & Hother & Hnone & Hsome & Hexn).
        exists d'. split_and!; try done.
        -- intros name Hne. rewrite Hother by done.
           by rewrite lookup_insert_ne.
        -- congruence.
        -- intros t' Ht'. rewrite Ht in Ht'. injection Ht' as <-.
           destruct (Hsome _ (lookup_insert_eq _ _ _)) as (news & Hd' & Hlen).
           simpl in Hd'. rewrite <- app_assoc in Hd'.
           eexists. split; [exact Hd'|]. simpl. lia.
        -- intros e He. destruct (Hexn e He) as [(en & Hen & Hr)|]; [|by right].
           left. exists en. split; [by apply elem_of_cons; right | done].
      * intros [= <- <-]. exists d. split_and!; try done.
        -- intros t Ht. exists []. rewrite app_nil_r.
           split; [by destruct t | simpl; lia].
        -- intros e [= <-]. right. by eapply insert_raises.
    + intros [= <- <-]. exists d. split_and!; try done.
      * intros t Ht. exists []. rewrite app_nil_r.
        split; [by destruct t | simpl; lia].
      * intros e [= <-]. left. exists entry.
        split; [by apply elem_of_cons; left | done].
Qed.

End OneStatement.

(** Each inserter is [insert_into] at its table, columns and
    normalizer, and its normalizer returns as many values as the
    statement has columns. *)
Lemma inserters_spec table cols items f :
  (table, cols, items, f) ∈ inserters →
  f = insert_into table cols items
  ∧ ∀ entry params, items entry = Ok params → length params = length cols.
Proof.
  unfold inserters. intros Hin.
  repeat (apply elem_of_cons in Hin as [[= -> -> -> ->] | Hin]).
  - split; [done | apply ManagerFacts.search_results_arity].
  - split; [done | apply ManagerFacts.images_results_arity].
  - split; [done | apply ManagerFacts.related_content_arity].
  - by apply elem_of_nil in Hin.
Qed.


End BatchFacts.

(* ===================================================================== *)
(** * Facts about stored rows                                             *)
(* ===================================================================== *)

Module RowFacts.

Lemma bind_parameters_stored params : ∀ i,
  Forall (λ v, bindable v = true) params →
  bind_parameters i params = Ok (stored <$> params).
Proof.
  induction params as [|v params IH]; intros i Hb; [done|].
  inversion Hb as [|? ? Hv Hrest]; subst. simpl.
  destruct v as [|s|l]; [| |done]; by rewrite (IH _ Hrest).
Qed.

Lemma bind_parameters_returns params : ∀ i vals,
  bind_parameters i params = Ok vals →
  Forall (λ v, bindable v = true) params ∧ vals = stored <$> params.
Proof.
  induction params as [|v params IH]; intros i vals; simpl.
  - intros [= <-]. by split.
  - destruct v as [|s|l]; [| |done];
      (destruct (bind_parameters (S i) params) as [vs|] eqn:E; [|done]);
      intros [= <-]; destruct (IH _ _ E) as [Hb ->];
      (split; [by constructor | done]).
Qed.

(** A statement that names each column once, with one value for each,
    gives every column its value. *)
Lemma assoc_aligned cols : ∀ vals,
  NoDup cols → length vals = length cols →
  (λ c, Sqlite.assoc c cols vals) <$> cols = vals.
Proof.
  induction cols as [|a cols IH]; intros [|v vals] Hnd Hlen; try done.
  inversion Hnd as [|? ? Ha Hnd']; subst. simpl.
  rewrite String.eqb_refl. f_equal.
  transitivity ((λ c, Sqlite.assoc c cols vals) <$> cols);
    [|apply (IH vals Hnd'); simpl in Hlen; lia].
  apply list_fmap_ext. intros i c Hc.
  destruct (String.eqb_spec c a) as [->|]; [|done].
  destruct Ha. by eapply list_elem_of_lookup_2.
Qed.

(** In a table whose columns are [record_id] and then the columns of
    the statement, the new row is the key and then the values. *)
Lemma new_row_aligned cols rs vals :
  "record_id" ∉ cols → NoDup cols → length vals = length cols →
  new_row (mkTable ("record_id" :: cols) rs) cols vals
  = SInt (next_key (mkTable ("record_id" :: cols) rs)) :: vals.
Proof.
  intros Hid Hnd Hlen. unfold new_row. simpl. f_equal.
  transitivity ((λ c, Sqlite.assoc c cols vals) <$> cols);
    [|by apply assoc_aligned].
  apply list_fmap_ext. intros i c Hc.
  destruct (String.eqb_spec c "record_id") as [->|]; [|done].
  destruct Hid. by eapply list_elem_of_lookup_2.
Qed.

Lemma max_key_nonneg (l : list Z) : (0 ≤ foldr Z.max 0%Z l)%Z.
Proof. induction l; simpl; lia. Qed.

Lemma max_key_snoc (l : list Z) (k : Z) :
  (0 ≤ k)%Z → foldr Z.max 0%Z (l ++ [k]) = Z.max (foldr Z.max 0%Z l) k.
Proof. intros Hk. induction l as [|a l IH]; simpl; [lia|]. rewrite IH. lia. Qed.

Lemma key_of_keyed cols k vals :
  key_of ("record_id" :: cols) (SInt k :: vals) = k.
Proof. reflexivity. Qed.

(** The key after a row keyed [next_key] is the next one. *)
Lemma next_key_snoc cols rs vals :
  next_key (mkTable ("record_id" :: cols)
              (rs ++ [SInt (next_key (mkTable ("record_id" :: cols) rs)) :: vals]))
  = (next_key (mkTable ("record_id" :: cols) rs) + 1)%Z.
Proof.
  unfold next_key. simpl. rewrite fmap_app. simpl.
  rewrite key_of_keyed.
  pose proof (max_key_nonneg (key_of ("record_id" :: cols) <$> rs)).
  rewrite max_key_snoc by lia. lia.
Qed.

(** Appending to such a table numbers the rows from the next key
    on. *)
Lemma append_rows_keyed cols valss : ∀ rs,
  "record_id" ∉ cols → NoDup cols →
  Forall (λ vals, length vals = length cols) valss →
  append_rows (mkTable ("record_id" :: cols) rs) cols valss
  = mkTable ("record_id" :: cols)
      (rs ++ keyed (next_key (mkTable ("record_id" :: cols) rs)) valss).
Proof.
  induction valss as [|vals valss IH]; intros rs Hid Hnd Hlen; simpl.
  - by rewrite app_nil_r.
  - inversion Hlen as [|? ? Hv Hrest]; subst.
    rewrite (new_row_aligned _ _ _ Hid Hnd Hv).
    rewrite (IH _ Hid Hnd Hrest), next_key_snoc.
    by rewrite <- app_assoc.
Qed.

Lemma keyed_length k valss : length (keyed k valss) = length valss.
Proof. revert k. induction valss; intros k; simpl; [done|]. by rewrite IHvalss. Qed.

(** The columns of the three statements: each named once, none of
    them the key, and the table created with the key before them. *)
Lemma inserters_columns table cols items f :
  (table, cols, items, f) ∈ inserters →
  ("record_id" ∉ cols) ∧ NoDup cols
  ∧ ∃ g, (table, "record_id" :: cols, g) ∈ table_ensurers.
Proof.
  unfold inserters. intros Hin.
  repeat (apply elem_of_cons in Hin as [[= -> -> -> ->] | Hin]);
    try (by apply elem_of_nil in Hin).
  - split; [by apply (bool_decide_unpack _)|].
    split; [by apply (bool_decide_unpack _)|].
    exists create_search_results_table. repeat constructor.
  - split; [by apply (bool_decide_unpack _)|].
    split; [by apply (bool_decide_unpack _)|].
    exists create_images_results_table. repeat constructor.
  - split; [by apply (bool_decide_unpack _)|].
    split; [by apply (bool_decide_unpack _)|].
    exists create_related_content_table. repeat constructor.
Qed.

End RowFacts.

(* ===================================================================== *)
(** * Facts about whole calls                                             *)
(* ===================================================================== *)

Module CallFacts.

(** A batch that binds, through any of the three inserts. *)
Lemma inserter_good table cols items f w d t good valss :
  (table, cols, items, f) ∈ inserters →
  store w = Some d →
  d !! table = Some t →
  Forall (λ c, c ∈ columns t) cols →
  Forall2 (λ entry vals, bound items entry = Ok vals) good valss →
  f good w
  = (mkWorld (Some (<[table := append_rows t cols valss]> d))
       (files w) (stdout w), Ok ()).
Proof.
  intros Hin Hd Ht Hcols Hgood.
  destruct (BatchFacts.inserters_spec _ _ _ _ Hin) as [-> arity].
  unfold insert_into, create_sql_connection, connect. rewrite Hd.
  rewrite <- (app_nil_r good).
  by rewrite (ManagerFacts.insert_rows_good table cols items arity
                _ _ Hgood _ _ _ Ht Hcols).
Qed.

(** The same into a table created by the manager, in terms of the
    tuples of the normalizer. *)
Lemma inserter_keyed table cols items f w d rs good paramss :
  (table, cols, items, f) ∈ inserters →
  store w = Some d →
  d !! table = Some (mkTable ("record_id" :: cols) rs) →
  Forall2 (λ entry params,
             items entry = Ok params
             ∧ Forall (λ v, bindable v = true) params) good paramss →
  f good w
  = (mkWorld
       (Some (<[table :=
                 mkTable ("record_id" :: cols)
                   (rs ++ keyed (next_key (mkTable ("record_id" :: cols) rs))
                                (stored_row <$> paramss))]> d))
       (files w) (stdout w), Ok ()).
Proof.
  intros Hin Hd Ht Hgood.
  destruct (BatchFacts.inserters_spec _ _ _ _ Hin) as [_ arity].
  destruct (RowFacts.inserters_columns _ _ _ _ Hin) as (Hid & Hnd & _).
  rewrite (inserter_good _ _ _ _ _ _ _ good (stored_row <$> paramss)
             Hin Hd Ht).
  - rewrite RowFacts.append_rows_keyed; [done..|].
    apply Forall_fmap. apply (Forall2_Forall_r _ _ _ _ Hgood).
    apply Forall_forall. intros params _ entry [Hitems _].
    unfold compose, stored_row. rewrite length_fmap. by eapply arity.
  - simpl. apply Forall_forall. intros c Hc. by apply list_elem_of_further.
  - apply Forall2_fmap_r. eapply Forall2_impl; [exact Hgood|].
    intros entry params [Hitems Hb]. unfold bound. rewrite Hitems. simpl.
    by apply RowFacts.bind_parameters_stored.
Qed.

(** The export when the three tables are there. *)
Lemma fetch_all_data_writes self w d t1 t2 t3 :
  store w = Some d →
  d !! "query_search_results" = Some t1 →
  d !! "images_results" = Some t2 →
  d !! "related_content" = Some t3 →
  fetch_all_data self w
  = (mkWorld (Some d)
       (<[output self +:+ "/" +:+ "related_content" +:+ ".csv"
          := mkFrame (columns t3) (rows t3)]>
          (<[output self +:+ "/" +:+ "images_results" +:+ ".csv"
             := mkFrame (columns t2) (rows t2)]>
             (<[output self +:+ "/" +:+ "query_search_results" +:+ ".csv"
                := mkFrame (columns t1) (rows t1)]> (files w))))
       (stdout w), Ok ()).
Proof.
  intros Hd H1 H2 H3.
  unfold fetch_all_data, create_sql_connection, connect. rewrite Hd.
  simpl. unfold read_sql_query. simpl. by rewrite H1, H2, H3.
Qed.

(** The files of two of the three tables are different files. *)
Lemma csv_path_ne out n1 n2 :
  n1 +:+ ".csv" ≠ n2 +:+ ".csv" →
  out +:+ "/" +:+ n1 +:+ ".csv" ≠ out +:+ "/" +:+ n2 +:+ ".csv".
Proof. intros H E. by apply H, (ManagerFacts.csv_path_inj out). Qed.

(** The constructor over a database that opens. *)
Lemma init_opens out w d :
  store w = Some d →
  init out w
  = (mkWorld
       (Some (ensured "related_content" related_content_columns
                (ensured "images_results" images_results_columns
                   (ensured "query_search_results" search_results_columns d))))
       (files w) (stdout w),
     Ok (mkManager out (out +:+ "/database.sql"))).
Proof.
  intros Hd. unfold init, create_search_results_table,
    create_images_results_table, create_related_content_table.
  rewrite ManagerFacts.create_table_spec, Hd. simpl.
  rewrite ManagerFacts.create_table_spec. simpl.
  rewrite ManagerFacts.create_table_spec. simpl. done.
Qed.

Lemma ensured_lookup name cols (m : gmap string Table) k :
  ensured name cols m !! k
  = if decide (name = k)
    then Some (default (mkTable cols []) (m !! k))
    else m !! k.
Proof.
  unfold ensured. destruct (decide (name = k)) as [->|Hne].
  - destruct (m !! k) as [t|] eqn:E; simpl; [done|].
    by rewrite lookup_insert_eq.
  - destruct (m !! name); [done|]. by rewrite lookup_insert_ne.
Qed.

End CallFacts.

Module LinkFacts.

(** A link that can be taken apart is a link that is there. *)
Lemma link_present entry link seg :
  get entry "link" (VStr "") = VStr link →
  Str.split "/" link !! 3 = Some seg →
  entry !! "link" = Some (VStr link).
Proof.
  unfold get. destruct (entry !! "link") as [v|]; simpl.
  - by intros ->.
  - intros [= <-]. done.
Qed.

(** Where the tuples of the two normalizers carry the link. *)
Lemma search_results_link entry params :
  get_items_from_search_results entry = Ok params →
  ∃ link, entry !! "link" = Some (VStr link)
          ∧ params !! 3 = Some (VStr link).
Proof.
  intros H.
  destruct (NormalizerFacts.search_results_inv _ _ H)
    as (snip & link & seg & Hs & Hl & Hseg).
  destruct (NormalizerFacts.likes_comments_total snip) as (lk & cm & Hlc).
  rewrite (NormalizerFacts.search_results_ok _ _ _ _ _ _ Hs Hl Hseg Hlc) in H.
  injection H as <-. exists link.
  pose proof (link_present _ _ _ Hl Hseg) as Hp.
  split; [done|]. simpl. by rewrite (NormalizerFacts.get_present _ _ _ _ Hp).
Qed.

Lemma images_results_link entry params :
  get_items_from_images_results entry = Ok params →
  ∃ link, entry !! "link" = Some (VStr link)
          ∧ params !! 2 = Some (VStr link).
Proof.
  intros H.
  destruct (get entry "link" (VStr "")) as [|link|ll] eqn:Hl;
    try (unfold get_items_from_images_results in H; rewrite Hl in H;
         discriminate H).
  destruct (Str.split "/" link !! 3) as [seg|] eqn:Hseg.
  - rewrite (NormalizerFacts.images_results_ok _ _ _ Hl Hseg) in H.
    injection H as <-. exists link.
    pose proof (link_present _ _ _ Hl Hseg) as Hp.
    split; [done|]. simpl. by rewrite (NormalizerFacts.get_present _ _ _ _ Hp).
  - unfold get_items_from_images_results, extract_author_post_id in H.
    rewrite Hl, Hseg in H. discriminate H.
Qed.

(** The column at position [S i] of rows keyed in front is position
    [i] of the values. *)
Lemma keyed_column i valss : ∀ k,
  (λ row : list SqlVal, default SNull (row !! S i)) <$> keyed k valss
  = (λ vals : list SqlVal, default SNull (vals !! i)) <$> valss.
Proof.
  induction valss as [|vals valss IH]; intros k; simpl; [done|].
  by rewrite IH.
Qed.

End LinkFacts.

Module BindFacts.



End BindFacts.

(* ===================================================================== *)
(** * The claims                                                          *)
(* ===================================================================== *)

(** C1, as stated, is false: after the insert of one row has failed, the
    call does not go on with the rows that follow.  Of three
    related-content records, the second of which cannot be bound, only
    the first is in the table afterwards, although the third binds. *)
Lemma later_rows_not_inserted_counterexample :
  (∃ vals, bound get_items_from_related_content card_c = Ok vals)
  ∧ (d ← store (insert_related_content [card_a; card_bad; card_c]
                  empty_tables_world).1;
     t ← d !! "related_content";
     column "link" t)
    = Some [SText "https://www.tiktok.com/@a/video/1"].
Proof.
  split; [|by vm_compute]. vm_compute. eexists. reflexivity.
Qed.

(** C1, amended.  For every batch passed to [insert_search_results] (and
    likewise [insert_images_results], [insert_related_content]), when the
    insert of one row fails, the failure is reported (one printed line),
    every earlier row of the batch remains committed, one row appended
    to the table for each, and the call ends there without raising: the
    rows after the failing one are not inserted.  (A row whose
    normalization raises ends the call at the same place, with the
    earlier rows committed; that exception is not printed and goes on to
    the caller.) *)
Theorem insertion_stops_at_first_failing_row
    (table : string) (cols : list string)
    (items : gmap string Value → result (list Value))
    (f : list (gmap string Value) → World → World * result ())
    (w : World) (d : gmap string Table) (t : Table)
    (good : list (gmap string Value)) (valss : list (list SqlVal))
    (bad : gmap string Value) (rest : list (gmap string Value)) (e : exn) :
  (table, cols, items, f) ∈ inserters →
  store w = Some d →
  d !! table = Some t →
  Forall (λ c, c ∈ columns t) cols →
  Forall2 (λ entry vals, bound items entry = Ok vals) good valss →
  bound items bad = Raise e →
  (∃ news, rows (append_rows t cols valss) = rows t ++ news
           ∧ length news = length good)
  ∧ columns (append_rows t cols valss) = columns t
  ∧ f (good ++ bad :: rest) w
    = (mkWorld (Some (<[table := append_rows t cols valss]> d)) (files w)
         (stdout w ++
            match e with
            | SqliteError msg => ["An error occurred while inserting data: " +:+ msg]
            | _ => []
            end),
       match e with
       | SqliteError _ => Ok ()
       | _ => Raise e
       end).
Proof.
  intros Hin Hd Ht Hcols Hgood Hbad.
  split; [|split; [apply ManagerFacts.append_rows_columns|]].
  { destruct (ManagerFacts.append_rows_rows cols valss t) as (news & E & Hlen).
    exists news. split; [done|]. by rewrite Hlen, (Forall2_length _ _ _ Hgood). }
  assert (f = insert_into table cols items
          ∧ ∀ entry params, items entry = Ok params →
              length params = length cols) as [-> arity].
  { unfold inserters in Hin.
    repeat (apply elem_of_cons in Hin as [[= -> -> -> ->] | Hin]).
    - split; [done | apply ManagerFacts.search_results_arity].
    - split; [done | apply ManagerFacts.images_results_arity].
    - split; [done | apply ManagerFacts.related_content_arity].
    - by apply elem_of_nil in Hin. }
  rewrite (ManagerFacts.insert_into_stops table cols items arity
             w d t good valss bad rest e Hd Ht Hcols Hgood Hbad).
  unfold finish, set_store, print, close. simpl.
  destruct e; try done.
  - by rewrite app_nil_r; destruct w.
  - by rewrite app_nil_r; destruct w.
  - by rewrite app_nil_r; destruct w.
  - by rewrite app_nil_r; destruct w.
Qed.

(** The hypotheses hold together: three related-content records, the
    second of which binds a list, inserted into empty tables. *)
Lemma insertion_stops_at_first_failing_row_witness :
  store empty_tables_world = Some empty_tables_store
  ∧ bound get_items_from_related_content card_bad
    = Raise (SqliteError "Error binding parameter 1: type 'list' is not supported")
  ∧ stdout (insert_related_content [card_a; card_bad; card_c]
              empty_tables_world).1
    = [ "An error occurred while inserting data: Error binding parameter 1: type 'list' is not supported" ].
Proof.
  split; [reflexivity|]. split; [reflexivity|].
  destruct (insertion_stops_at_first_failing_row
              "related_content" related_content_fields
              get_items_from_related_content insert_related_content
              empty_tables_world empty_tables_store
              (mkTable related_content_columns [])
              [card_a]
              [[SText "TikTok"; SText "https://www.tiktok.com/@a/video/1";
                SNull; SNull]]
              card_bad [card_c]
              (SqliteError "Error binding parameter 1: type 'list' is not supported"))
    as (_ & _ & H).
  - unfold inserters. apply elem_of_cons. right. apply elem_of_cons. right.
    apply elem_of_cons. left. reflexivity.
  - reflexivity.
  - reflexivity.
  - apply (bool_decide_unpack _). vm_compute. reflexivity.
  - constructor; [reflexivity | constructor].
  - reflexivity.
  - simpl in H. rewrite H. reflexivity.
Defined.

(** C2, as stated, is false: a record whose link is present and well
    formed, with other known keys absent, can make the SearchResult
    normalizer raise. *)
Lemma present_null_counterexample :
  null_snippet_entry !! "link" = Some (VStr jane_link)
  ∧ conforming jane_link = true
  ∧ null_snippet_entry !! "title" = None
  ∧ get_items_from_search_results null_snippet_entry = Raise TypeError.
Proof. repeat split; by vm_compute. Qed.

(** C2, amended.  For every raw record in which the link is present and
    of the shape, any subset of the other known keys is absent, and the
    snippet, when present, is a string: the SearchResult normalizer
    returns a tuple of 14 components; and whatever the snippet is, the
    ImageResult normalizer returns one of 7 and the RelatedContent
    normalizer one of 4.  In each tuple every copied (non-derived) field
    whose key is absent from the record is [None], and no normalizer
    raises. *)
Theorem absent_keys_become_null (entry : gmap string Value) (link : string) :
  entry !! "link" = Some (VStr link) →
  conforming link = true →
  (entry !! "snippet" = None ∨ (∃ s, entry !! "snippet" = Some (VStr s)) →
   ∃ t, get_items_from_search_results entry = Ok t
        ∧ length t = 14
        ∧ ∀ i key, (i, key) ∈ search_results_copied →
            entry !! key = None → t !! i = Some VNone)
  ∧ (∃ t, get_items_from_images_results entry = Ok t
          ∧ length t = 7
          ∧ ∀ i key, (i, key) ∈ images_results_copied →
              entry !! key = None → t !! i = Some VNone)
  ∧ (∃ t, get_items_from_related_content entry = Ok t
          ∧ length t = 4
          ∧ ∀ i key, (i, key) ∈ related_content_copied →
              entry !! key = None → t !! i = Some VNone).
Proof.
  intros Hlink Hc.
  destruct (NormalizerFacts.conforming_profile _ Hc) as (seg & Hseg & _).
  pose proof (NormalizerFacts.get_present _ _ (VStr "") _ Hlink) as Hl.
  split; [|split].
  - intros Hsn.
    assert (∃ sn, get entry "snippet" (VStr "") = VStr sn) as [sn Hs].
    { unfold get. destruct Hsn as [-> | [s ->]]; eauto. }
    destruct (NormalizerFacts.likes_comments_total sn) as (l & c & Hlc).
    eexists. split;
      [exact (NormalizerFacts.search_results_ok _ _ _ _ _ _ Hs Hl Hseg Hlc)|].
    split; [done|]. intros i key Hin Hnone.
    unfold search_results_copied in Hin.
    repeat (apply elem_of_cons in Hin as [[= -> ->] | Hin]);
      try (by apply elem_of_nil in Hin);
      try (simpl; by rewrite (NormalizerFacts.get_absent _ _ _ Hnone)).
    simpl. by rewrite (NormalizerFacts.highlighted_words_absent _ Hnone).
  - eexists. split; [exact (NormalizerFacts.images_results_ok _ _ _ Hl Hseg)|].
    split; [done|]. intros i key Hin Hnone.
    unfold images_results_copied in Hin.
    repeat (apply elem_of_cons in Hin as [[= -> ->] | Hin]);
      try (by apply elem_of_nil in Hin);
      simpl; by rewrite (NormalizerFacts.get_absent _ _ _ Hnone).
  - eexists. split; [reflexivity|].
    split; [done|]. intros i key Hin Hnone.
    unfold related_content_copied in Hin.
    repeat (apply elem_of_cons in Hin as [[= -> ->] | Hin]);
      try (by apply elem_of_nil in Hin);
      simpl; by rewrite (NormalizerFacts.get_absent _ _ _ Hnone).
Qed.

(** The hypotheses hold together: a record with nothing but a link of the
    shape. *)
Lemma absent_keys_become_null_witness :
  link_only_entry !! "link" = Some (VStr jane_link)
  ∧ conforming jane_link = true
  ∧ link_only_entry !! "snippet" = None
  ∧ ∃ t, get_items_from_search_results link_only_entry = Ok t ∧ length t = 14.
Proof.
  split; [reflexivity|]. split; [reflexivity|]. split; [reflexivity|].
  destruct (absent_keys_become_null link_only_entry jane_link eq_refl eq_refl)
    as [Hs _].
  destruct (Hs (or_introl eq_refl)) as (t & Ht & Hlen & _).
  exists t. split; [exact Ht | exact Hlen].
Defined.

(** C3, as stated, is false: a link that is not of the shape does not
    always make the derivation raise. *)
Lemma off_shape_link_counterexample :
  conforming off_shape_link = false
  ∧ extract_author_post_id (VStr off_shape_link)
    = Ok ("watch", "https://www.tiktok.com/@watch", "42").
Proof. split; by vm_compute. Qed.

(** C3, amended.  The derivation of author, link_to_author and post_id
    raises exactly for a link with fewer than four ['/']-separated
    segments: there [extract_author_post_id] raises [IndexError], and so
    does the normalization call (the SearchResult normalizer raises it
    unless the snippet has already raised [TypeError]); no null fields
    are returned.  A link of at least four segments never raises,
    whatever its shape, and yields three strings.  The three fields are
    what [extract_author_post_id] computes from the link and from
    nothing else in the record. *)
Theorem derivation_from_link_only (entry : gmap string Value) (link : string) :
  get entry "link" (VStr "") = VStr link →
  (length (Str.split "/" link) < 4 →
     extract_author_post_id (VStr link) = Raise IndexError
     ∧ get_items_from_images_results entry = Raise IndexError
     ∧ (get_items_from_search_results entry = Raise IndexError
        ∨ get_items_from_search_results entry = Raise TypeError))
  ∧ (4 ≤ length (Str.split "/" link) →
     ∃ author link_to_author post_id,
       extract_author_post_id (VStr link) = Ok (author, link_to_author, post_id)
       ∧ (∃ t, get_items_from_images_results entry = Ok t
            ∧ drop 4 t = [VStr author; VStr link_to_author; VStr post_id])
       ∧ (∀ t, get_items_from_search_results entry = Ok t →
            drop 11 t = [VStr author; VStr link_to_author; VStr post_id])).
Proof.
  intros Hl. split.
  - intros Hshort. pose proof (NormalizerFacts.extract_short _ Hshort) as E.
    split; [done|]. split.
    + unfold get_items_from_images_results. by rewrite Hl, E.
    + unfold get_items_from_search_results. rewrite Hl, E.
      destruct (get entry "snippet" (VStr "")) as [|sn|]; [by right| |by right].
      destruct (NormalizerFacts.likes_comments_total sn) as (l & c & ->).
      by left.
  - intros Hlong.
    destruct (lookup_lt_is_Some_2 (Str.split "/" link) 3 ltac:(lia)) as [seg Hseg].
    eexists _, _, _. split; [by apply NormalizerFacts.extract_ok|]. split.
    + eexists. split; [by eapply NormalizerFacts.images_results_ok|done].
    + intros t Ht.
      destruct (NormalizerFacts.search_results_inv _ _ Ht)
        as (sn & link' & seg' & Hs & Hl' & Hseg').
      rewrite Hl in Hl'. injection Hl' as <-.
      rewrite Hseg in Hseg'. injection Hseg' as <-.
      destruct (NormalizerFacts.likes_comments_total sn) as (l & c & Hlc).
      rewrite (NormalizerFacts.search_results_ok _ _ _ _ _ _ Hs Hl Hseg Hlc) in Ht.
      injection Ht as <-. done.
Qed.

(** The hypotheses hold together: a record whose link has two segments. *)
Lemma derivation_from_link_only_witness :
  get short_link_entry "link" (VStr "") = VStr "tiktok.com/@jane.doe"
  ∧ get_items_from_images_results short_link_entry = Raise IndexError
  ∧ get_items_from_search_results short_link_entry = Raise IndexError.
Proof.
  split; [reflexivity|].
  destruct (derivation_from_link_only short_link_entry "tiktok.com/@jane.doe"
              eq_refl) as [Hshort _].
  destruct Hshort as (_ & Hi & Hs); [vm_compute; lia|].
  split; [exact Hi|].
  destruct Hs as [Hs | Hs]; [exact Hs | vm_compute in Hs; discriminate Hs].
Defined.

(** C4, as stated, is false: of a link of the shape
    [https://<host>/@<author>/.../<post_id>] the author returned is not
    always the fourth segment with its leading ['@'] stripped. *)
Lemma leading_at_only_counterexample :
  ¬ (∀ link, conforming link = true →
       ∃ seg, Str.split "/" link !! 3 = Some seg
         ∧ extract_author_post_id (VStr link)
           = Ok (strip_leading "@" seg,
                 "https://www.tiktok.com/@" +:+ strip_leading "@" seg,
                 List.last (Str.split "/" link) "")).
Proof.
  intros H. destruct (H inner_at_link eq_refl) as (seg & Hseg & E).
  vm_compute in Hseg. injection Hseg as <-. vm_compute in E. discriminate E.
Qed.

(** C4, amended.  For every link of the shape
    [https://<host>/@<author>/.../<post_id>], [extract_author_post_id]
    returns the fourth ['/']-separated segment (index 3) with every ['@']
    removed as author (which is that segment with its leading ['@']
    stripped whenever the rest of it holds no ['@']), the string
    ["https://www.tiktok.com/@"] followed by that author as
    link_to_author, and the last ['/']-separated segment of the link as
    post_id; in particular
    ["https://www.tiktok.com/@jane.doe/video/12345"] gives
    [("jane.doe", "https://www.tiktok.com/@jane.doe", "12345")]. *)
Theorem extract_author_post_id_conforming (link : string) :
  conforming link = true →
  (∃ seg,
     Str.split "/" link !! 3 = Some seg
     ∧ extract_author_post_id (VStr link)
       = Ok (Str.remove "@" seg,
             "https://www.tiktok.com/@" +:+ Str.remove "@" seg,
             List.last (Str.split "/" link) "")
     ∧ (Str.mem "@" (strip_leading "@" seg) = false →
        Str.remove "@" seg = strip_leading "@" seg))
  ∧ extract_author_post_id (VStr "https://www.tiktok.com/@jane.doe/video/12345")
    = Ok ("jane.doe", "https://www.tiktok.com/@jane.doe", "12345").
Proof.
  intros Hc. split; [|by vm_compute].
  destruct (NormalizerFacts.conforming_profile _ Hc) as (seg & Hseg & Hat).
  exists seg. split; [done|]. split; [by apply NormalizerFacts.extract_ok|].
  destruct seg as [|x seg]; [done|]. simpl in Hat |- *. rewrite Hat.
  apply StrFacts.remove_absent.
Qed.

(** The hypothesis holds of the link of the example. *)
Lemma extract_author_post_id_conforming_witness :
  conforming jane_link = true
  ∧ (∃ seg,
       Str.split "/" jane_link !! 3 = Some seg
       ∧ extract_author_post_id (VStr jane_link)
         = Ok (Str.remove "@" seg,
               "https://www.tiktok.com/@" +:+ Str.remove "@" seg,
               List.last (Str.split "/" jane_link) "")
       ∧ (Str.mem "@" (strip_leading "@" seg) = false →
          Str.remove "@" seg = strip_leading "@" seg)).
Proof.
  split; [reflexivity|].
  apply (extract_author_post_id_conforming jane_link). reflexivity.
Defined.

(** C5.  For every text, [extract_likes_comments] searches,
    independently for the two words, for the first (leftmost)
    occurrence, in any mix of cases, of a number (digits, possibly with
    [,] and [.] between them, possibly one trailing K or M) immediately
    followed by the word: the one space that separates them, then Likes
    for the first component, Comments for the second.  It returns the
    number verbatim, as a string, and [None] exactly when the text has
    no such occurrence.  A text can yield both, one, or neither:
    ["1.2K Likes, 340 Comments"] gives [("1.2K", "340")],
    ["no stats here"] gives [(None, None)]. *)
Theorem extract_likes_comments_first_occurrences :
  (∀ text : string,
     ∃ likes comments,
       extract_likes_comments (VStr text) = Ok (likes, comments)
       ∧ (∀ n, likes = VStr n ↔ first_occurrence "Likes" text n)
       ∧ (likes = VNone ↔ ∀ pre n, ¬ occurs_at "Likes" text pre n)
       ∧ (∀ n, comments = VStr n ↔ first_occurrence "Comments" text n)
       ∧ (comments = VNone ↔ ∀ pre n, ¬ occurs_at "Comments" text pre n))
  ∧ extract_likes_comments (VStr "1.2K Likes, 340 Comments")
    = Ok (VStr "1.2K", VStr "340")
  ∧ extract_likes_comments (VStr "no stats here") = Ok (VNone, VNone)
  ∧ extract_likes_comments (VStr "Top clip: 7 likes") = Ok (VStr "7", VNone)
  ∧ extract_likes_comments (VStr "3 COMMENTS so far") = Ok (VNone, VStr "3").
Proof.
  split; [|by vm_compute].
  intros text.
  destruct (SearchFacts.found_spec "Likes" text) as [L1 L2].
  destruct (SearchFacts.found_spec "Comments" text) as [C1 C2].
  eexists _, _. split; [reflexivity|]. done.
Qed.

(** Read from right to left, the equivalences locate the counts of the
    two examples. *)
Lemma extract_likes_comments_first_occurrences_witness :
  first_occurrence "Likes" "1.2K Likes, 340 Comments" "1.2K"
  ∧ first_occurrence "Comments" "1.2K Likes, 340 Comments" "340"
  ∧ ∀ pre n, ¬ occurs_at "Likes" "no stats here" pre n.
Proof.
  destruct extract_likes_comments_first_occurrences as (H & E1 & E2 & _).
  destruct (H "1.2K Likes, 340 Comments") as (l & c & E & L & _ & C & _).
  rewrite E1 in E. injection E as <- <-.
  split; [apply L; reflexivity|]. split; [apply C; reflexivity|].
  destruct (H "no stats here") as (l' & c' & E' & _ & L' & _).
  rewrite E2 in E'. injection E' as <- <-. apply L'. reflexivity.
Defined.

(** C6.  For every raw record whose link satisfies the derivation
    precondition (at least four ['/']-separated segments), every tuple
    the SearchResult normalizer emits carries as title_snippet (position
    8) the string [title + " " + snippet], where [title] and [snippet]
    are the record's strings, each the empty string when its key is
    absent (a title present as [None] is formatted as ["None"]); the
    field is a string, never null, also when both keys are absent, where
    it is [" "]; and a tuple is emitted whenever the snippet is absent
    or a string. *)
Theorem title_snippet_concatenation (entry : gmap string Value) (link : string) :
  get entry "link" (VStr "") = VStr link →
  4 ≤ length (Str.split "/" link) →
  (∀ t, get_items_from_search_results entry = Ok t →
     ∃ title snippet,
       t !! 8 = Some (VStr (title +:+ " " +:+ snippet))
       ∧ (entry !! "title" = None → title = "")
       ∧ (∀ s, entry !! "title" = Some (VStr s) → title = s)
       ∧ (entry !! "title" = Some VNone → title = "None")
       ∧ (entry !! "snippet" = None → snippet = "")
       ∧ (∀ s, entry !! "snippet" = Some (VStr s) → snippet = s)
       ∧ t !! 8 ≠ Some VNone)
  ∧ (entry !! "snippet" = None ∨ (∃ s, entry !! "snippet" = Some (VStr s)) →
     ∃ t, get_items_from_search_results entry = Ok t)
  ∧ (entry !! "title" = None → entry !! "snippet" = None →
     ∃ t, get_items_from_search_results entry = Ok t
          ∧ t !! 8 = Some (VStr " ")).
Proof.
  intros Hl Hlong.
  destruct (lookup_lt_is_Some_2 (Str.split "/" link) 3 ltac:(lia)) as [seg Hseg].
  assert (Hok : ∀ sn, get entry "snippet" (VStr "") = VStr sn →
            ∃ likes comments,
              get_items_from_search_results entry
              = Ok [ get entry "source" VNone; get entry "title" VNone;
                     get entry "snippet" VNone; get entry "link" VNone;
                     get entry "thumbnail" VNone; get entry "video_link" VNone;
                     highlighted_words entry; get entry "displayed_link" VNone;
                     VStr (py_format (get entry "title" (VStr "")) +:+ " " +:+ sn);
                     likes; comments;
                     VStr (Str.remove "@" seg);
                     VStr ("https://www.tiktok.com/@" +:+ Str.remove "@" seg);
                     VStr (List.last (Str.split "/" link) "") ]).
  { intros sn Hs.
    destruct (NormalizerFacts.likes_comments_total sn) as (l & c & Hlc).
    exists l, c. by apply NormalizerFacts.search_results_ok. }
  split; [|split].
  - intros t Ht.
    destruct (NormalizerFacts.search_results_inv _ _ Ht)
      as (sn & link' & seg' & Hs & _ & _).
    destruct (Hok sn Hs) as (l & c & E). rewrite E in Ht. injection Ht as <-.
    exists (py_format (get entry "title" (VStr ""))), sn.
    split; [done|]. unfold get in Hs |- *.
    repeat split; try done.
    + by intros ->.
    + by intros s ->.
    + by intros ->.
    + intros H. rewrite H in Hs. by injection Hs.
    + intros s H. rewrite H in Hs. by injection Hs.
  - intros Hsn.
    assert (∃ sn, get entry "snippet" (VStr "") = VStr sn) as [sn Hs].
    { unfold get. destruct Hsn as [-> | [s ->]]; eauto. }
    destruct (Hok sn Hs) as (l & c & E). eauto.
  - intros Ht Hs.
    destruct (Hok "" (NormalizerFacts.get_absent _ _ _ Hs)) as (l & c & E).
    eexists. split; [exact E|].
    rewrite (NormalizerFacts.get_absent _ _ (VStr "") Ht). reflexivity.
Qed.

(** The hypotheses hold together: title and snippet both absent. *)
Lemma title_snippet_concatenation_witness :
  get link_only_entry "link" (VStr "") = VStr jane_link
  ∧ 4 ≤ length (Str.split "/" jane_link)
  ∧ ∃ t, get_items_from_search_results link_only_entry = Ok t
         ∧ t !! 8 = Some (VStr " ").
Proof.
  split; [reflexivity|]. split; [vm_compute; repeat constructor|].
  apply (title_snippet_concatenation link_only_entry jane_link);
    [reflexivity | vm_compute; repeat constructor | reflexivity | reflexivity].
Defined.

(** C7.  [get_collected_videos] returns the union, without duplicates,
    of the link column of the search-results table and of the
    image-results table: every link of either table is in the result,
    nothing else is, and no value is there twice, also when it occurs in
    both tables or in several rows.  When the connection cannot be
    established, the result is the empty list. *)
Theorem collected_links_deduplicated_union (w : World) :
  (store w = None → (get_collected_videos w).2 = Ok [])
  ∧ (∀ d ts ti ls li,
       store w = Some d →
       d !! "query_search_results" = Some ts →
       d !! "images_results" = Some ti →
       column "link" ts = Some ls →
       column "link" ti = Some li →
       ∃ data,
         (get_collected_videos w).2 = Ok data
         ∧ NoDup data
         ∧ (∀ x, x ∈ data ↔ x ∈ ls ∨ x ∈ li)
         ∧ store (get_collected_videos w).1 = store w).
Proof.
  unfold get_collected_videos, create_sql_connection, connect. split.
  - by intros ->.
  - intros d ts ti ls li -> Hs Hi Hls Hli.
    unfold select_union. simpl. rewrite Hi, Hs, Hls, Hli. simpl.
    exists (remove_dups (ls ++ li)). split; [done|].
    split; [apply NoDup_remove_dups|]. split; [|done].
    intros x. by rewrite elem_of_remove_dups, elem_of_app.
Qed.

(** The hypotheses hold together: one link in both tables, another in one
    of them. *)
Lemma collected_links_deduplicated_union_witness :
  store sample_world = Some sample_store
  ∧ (get_collected_videos sample_world).2
    = Ok [SText jane_link; SText "https://www.tiktok.com/@joe/video/7"].
Proof.
  split; [reflexivity|].
  destruct (collected_links_deduplicated_union sample_world) as [_ H].
  destruct (H sample_store _ _ _ _ eq_refl eq_refl eq_refl eq_refl eq_refl)
    as (data & Hdata & _).
  rewrite Hdata. vm_compute in Hdata. injection Hdata as <-. reflexivity.
Defined.

(** C8, as stated, is false: when the read of one table fails, the
    tables after it in the loop are not exported.  Here the second table
    is missing; the first file is written, the third is not, although
    its table can be read. *)
Lemma later_tables_not_exported_counterexample :
  is_Some (files (fetch_all_data sample_manager no_images_world).1
             !! "out/query_search_results.csv")
  ∧ (∃ df, read_sql_query "related_content"
             (mkConn no_images_store no_images_store) = Ok df)
  ∧ files (fetch_all_data sample_manager no_images_world).1
      !! "out/related_content.csv" = None.
Proof.
  split; [vm_compute; eexists; reflexivity|]. split; [|by vm_compute].
  vm_compute. eexists. reflexivity.
Qed.

(** C8, amended.  In [fetch_all_data] the three tables are exported in
    order over one connection, and the first table whose read fails ends
    the export: the CSV file of every table before it has been written
    with the table's columns and rows, the export of the failing table
    is abandoned, and no table after it is exported (the files of the
    failing table and of the later ones are left as they were).  The
    store itself is not changed. *)
Theorem export_stops_at_first_unreadable_table
    (self : SQLDatabaseManager) (w : World) (d : gmap string Table)
    (before after : list string) (t : string) :
  store w = Some d →
  ["query_search_results"; "images_results"; "related_content"]
    = before ++ t :: after →
  (∀ t', t' ∈ before → is_Some (d !! t')) →
  d !! t = None →
  (∀ t' tb, t' ∈ before → d !! t' = Some tb →
     files (fetch_all_data self w).1 !! (output self +:+ "/" +:+ t' +:+ ".csv")
     = Some (mkFrame (columns tb) (rows tb)))
  ∧ (∀ t', t' ∈ t :: after →
       files (fetch_all_data self w).1 !! (output self +:+ "/" +:+ t' +:+ ".csv")
       = files w !! (output self +:+ "/" +:+ t' +:+ ".csv"))
  ∧ store (fetch_all_data self w).1 = store w.
Proof.
  intros Hd Hsplit Hbefore Hnone.
  assert (Hne : ∀ t1 t2, t1 +:+ ".csv" ≠ t2 +:+ ".csv" →
            output self +:+ "/" +:+ t1 +:+ ".csv"
            ≠ output self +:+ "/" +:+ t2 +:+ ".csv").
  { intros t1 t2 H E. by apply H, (ManagerFacts.csv_path_inj (output self)). }
  unfold fetch_all_data, create_sql_connection, connect. rewrite Hd.
  destruct before as [|b0 [|b1 [|b2 before]]]; simplify_list_eq.
  - unfold read_sql_query. simpl. rewrite Hnone. simpl.
    split; [by intros t' tb ?%elem_of_nil|]. done.
  - destruct (Hbefore "query_search_results") as [t0 H0]; [set_solver|].
    unfold read_sql_query. simpl. rewrite H0, Hnone. simpl.
    split; [|split; [|done]].
    + intros t' tb ->%list_elem_of_singleton. rewrite H0. intros [= <-].
      by rewrite lookup_insert_eq.
    + intros t' Hin. rewrite lookup_insert_ne; [done|]. apply Hne.
      repeat (apply elem_of_cons in Hin as [-> | Hin]); try done.
      by apply elem_of_nil in Hin.
  - destruct (Hbefore "query_search_results") as [t0 H0]; [set_solver|].
    destruct (Hbefore "images_results") as [t1 H1]; [set_solver|].
    unfold read_sql_query. simpl. rewrite H0, H1, Hnone. simpl.
    split; [|split; [|done]].
    + intros t' tb Hin Ht'.
      repeat (apply elem_of_cons in Hin as [-> | Hin]);
        try (by apply elem_of_nil in Hin).
      * rewrite H0 in Ht'. injection Ht' as <-.
        rewrite lookup_insert_ne; [by rewrite lookup_insert_eq|].
        by apply Hne.
      * rewrite H1 in Ht'. injection Ht' as <-. by rewrite lookup_insert_eq.
    + intros t' ->%list_elem_of_singleton.
      rewrite !lookup_insert_ne; [done | by apply Hne..].
  - destruct before; simplify_list_eq.
Qed.

(** The hypotheses hold together: the second of the three tables is
    missing. *)
Lemma export_stops_at_first_unreadable_table_witness :
  store no_images_world = Some no_images_store
  ∧ no_images_store !! "images_results" = None
  ∧ files (fetch_all_data sample_manager no_images_world).1
      !! (output sample_manager +:+ "/" +:+ "related_content" +:+ ".csv")
    = files no_images_world
      !! (output sample_manager +:+ "/" +:+ "related_content" +:+ ".csv").
Proof.
  split; [reflexivity|]. split; [reflexivity|].
  destruct (export_stops_at_first_unreadable_table sample_manager
              no_images_world no_images_store
              ["query_search_results"] ["related_content"] "images_results")
    as (_ & H & _).
  - reflexivity.
  - reflexivity.
  - intros t' Hin. apply list_elem_of_singleton in Hin. rewrite Hin.
    vm_compute. eexists. reflexivity.
  - reflexivity.
  - apply H. apply elem_of_cons. right. apply elem_of_cons. left. reflexivity.
Defined.

(** C9.  The three table-ensure operations are idempotent: from any
    state of the store (also one that cannot be opened), an ensure
    operation called twice in a row leaves the store as one call leaves
    it; neither call raises; a table that already exists is left as it
    is, columns and rows, with the rest of the store; a table that does
    not exist is created empty with the columns of the statement. *)
Theorem ensure_table_idempotent
    (name : string) (cols : list string) (f : World → World * result ())
    (w : World) :
  (name, cols, f) ∈ table_ensurers →
  (f w).2 = Ok ()
  ∧ (f (f w).1).2 = Ok ()
  ∧ store (f (f w).1).1 = store (f w).1
  ∧ (store w = None → store (f w).1 = None)
  ∧ (∀ d t, store w = Some d → d !! name = Some t → store (f w).1 = Some d)
  ∧ (∀ d, store w = Some d → d !! name = None →
       store (f w).1 = Some (<[name := mkTable cols []]> d)).
Proof.
  intros Hin.
  assert (f = create_table name cols) as ->.
  { unfold table_ensurers in Hin.
    repeat (apply elem_of_cons in Hin as [[= -> -> ->] | Hin]); try done.
    by apply elem_of_nil in Hin. }
  rewrite !ManagerFacts.create_table_spec.
  destruct (store w) as [d|] eqn:Hd; simpl.
  - destruct (d !! name) as [t|] eqn:Ht; simpl.
    + rewrite Ht. repeat split; try done.
      intros d' [= <-] Hn. congruence.
    + rewrite lookup_insert_eq. repeat split; try done.
      * intros d' t [= <-] Hs. congruence.
      * by intros d' [= <-] _.
  - simpl. rewrite Hd. simpl. rewrite Hd. done.
Qed.

(** The hypothesis holds of each operation; here the second, on a store
    that has its table. *)
Lemma ensure_table_idempotent_witness :
  ("images_results", images_results_columns, create_images_results_table)
    ∈ table_ensurers
  ∧ (create_images_results_table sample_world).2 = Ok ()
  ∧ store (create_images_results_table
             (create_images_results_table sample_world).1).1
    = store (create_images_results_table sample_world).1.
Proof.
  assert (H : ("images_results", images_results_columns,
               create_images_results_table) ∈ table_ensurers).
  { unfold table_ensurers. apply elem_of_cons. right.
    apply elem_of_cons. left. reflexivity. }
  split; [exact H|].
  destruct (ensure_table_idempotent _ _ _ sample_world H) as (H1 & _ & H3 & _).
  split; [exact H1 | exact H3].
Defined.

(** C10.  The SearchResult normalizer degrades to null for absent keys
    only: for every raw record that binds ['snippet'] to [None],
    [get_items_from_search_results] raises (the [None] reaches the
    likes/comments search, which refuses it with a [TypeError]) and no
    tuple is emitted. *)
Theorem null_snippet_raises (entry : gmap string Value) :
  entry !! "snippet" = Some VNone →
  get_items_from_search_results entry = Raise TypeError.
Proof.
  intros H. unfold get_items_from_search_results.
  rewrite (NormalizerFacts.get_present _ _ (VStr "") _ H). reflexivity.
Qed.

(** The hypothesis holds of a record with a well-formed link. *)
Lemma null_snippet_raises_witness :
  null_snippet_entry !! "snippet" = Some VNone
  ∧ get_items_from_search_results null_snippet_entry = Raise TypeError.
Proof.
  split; [reflexivity | apply null_snippet_raises; reflexivity].
Defined.

(* ===================================================================== *)
(** * Further properties of [utilities.py]                                *)
(* ===================================================================== *)

(** X1.  [extract_author_post_id] raises [IndexError] exactly for the
    links with fewer than three ['/'] characters, and returns a triple
    for every other string: nothing but the number of slashes decides
    whether the derivation succeeds. *)
Theorem index_error_iff_fewer_than_three_slashes (link : string) :
  (extract_author_post_id (VStr link) = Raise IndexError
   ↔ occurrences "/" link < 3)
  ∧ ((∃ author link_to_author post_id,
        extract_author_post_id (VStr link)
        = Ok (author, link_to_author, post_id))
     ↔ 3 ≤ occurrences "/" link).
Proof.
  pose proof (SplitFacts.split_length "/" link) as Hlen.
  destruct (decide (occurrences "/" link < 3)) as [Hlt|Hge].
  - rewrite (NormalizerFacts.extract_short link) by lia.
    split; [done|]. split; [by intros (? & ? & ? & ?) | lia].
  - destruct (lookup_lt_is_Some_2 (Str.split "/" link) 3 ltac:(lia)) as [seg Hseg].
    rewrite (NormalizerFacts.extract_ok _ _ Hseg).
    split; [split; [done | lia]|]. split; [lia | eauto].
Qed.

(** X2.  Whatever triple [extract_author_post_id] returns for a link,
    the author holds neither ['@'] nor ['/'], the post id holds no ['/']
    and is the text of the link after its last ['/'], and the author
    link is ["https://www.tiktok.com/@"] followed by the author. *)
Theorem derived_fields_shape (link author link_to_author post_id : string) :
  extract_author_post_id (VStr link) = Ok (author, link_to_author, post_id) →
  Str.mem "@" author = false
  ∧ Str.mem "/" author = false
  ∧ Str.mem "/" post_id = false
  ∧ (∃ pre, link = pre +:+ "/" +:+ post_id)
  ∧ link_to_author = "https://www.tiktok.com/@" +:+ author.
Proof.
  intros H.
  destruct (Str.split "/" link !! 3) as [seg|] eqn:Hseg.
  - rewrite (NormalizerFacts.extract_ok _ _ Hseg) in H. injection H as <- <- <-.
    pose proof (SplitFacts.split_segments_clean "/" link) as Hclean.
    rewrite Forall_forall in Hclean.
    split; [apply SplitFacts.mem_remove|].
    split.
    { apply SplitFacts.mem_remove_other, Hclean. by eapply list_elem_of_lookup_2. }
    pose proof (SplitFacts.split_length "/" link) as Hlen.
    pose proof (lookup_lt_Some _ _ _ Hseg) as Hlt.
    split; [|split; [|done]].
    + apply Hclean. apply list_elem_of_In.
      destruct (Str.split "/" link) as [|s0 l]; [simpl in Hlt; lia|].
      destruct (exists_last (l:=s0 :: l) ltac:(done)) as (l' & x & ->).
      rewrite last_last. apply in_app_iff. right. by left.
    + apply SplitFacts.split_last_suffix. lia.
  - unfold extract_author_post_id in H. by rewrite Hseg in H.
Qed.

(** The hypothesis holds of the link of the specification's example. *)
Lemma derived_fields_shape_witness :
  extract_author_post_id (VStr jane_link)
  = Ok ("jane.doe", "https://www.tiktok.com/@jane.doe", "12345")
  ∧ Str.mem "/" "12345" = false
  ∧ ∃ pre, jane_link = pre +:+ "/" +:+ "12345".
Proof.
  split; [reflexivity|].
  destruct (derived_fields_shape jane_link "jane.doe"
              "https://www.tiktok.com/@jane.doe" "12345" eq_refl)
    as (_ & _ & H1 & H2 & _).
  split; [exact H1 | exact H2].
Defined.

(** X3.  For a link written [scheme//host/profile], the three parts
    free of ['/'], the author is the profile with every ['@'] removed
    and the post id is the profile itself, ['@'] included; when
    [/tail] follows the profile, the author is the same and the post id
    is the last ['/']-separated segment of the tail. *)
Theorem extract_from_url_parts (scheme host profile : string) :
  Str.mem "/" scheme = false →
  Str.mem "/" host = false →
  Str.mem "/" profile = false →
  extract_author_post_id (VStr (scheme +:+ "//" +:+ host +:+ "/" +:+ profile))
  = Ok (Str.remove "@" profile,
        "https://www.tiktok.com/@" +:+ Str.remove "@" profile,
        profile)
  ∧ ∀ tail,
      extract_author_post_id
        (VStr (scheme +:+ "//" +:+ host +:+ "/" +:+ profile +:+ "/" +:+ tail))
      = Ok (Str.remove "@" profile,
            "https://www.tiktok.com/@" +:+ Str.remove "@" profile,
            List.last (Str.split "/" tail) "").
Proof.
  intros Hs Hh Hp.
  assert (Hsplit : ∀ rest,
    Str.split "/" (scheme +:+ "//" +:+ host +:+ "/" +:+ rest)
    = scheme :: "" :: host :: Str.split "/" rest).
  { intros rest.
    change (scheme +:+ "//" +:+ host +:+ "/" +:+ rest)
      with (scheme +:+ String "/" ("" +:+ String "/" (host +:+ String "/" rest))).
    by rewrite !SplitFacts.split_app_sep. }
  split.
  - unfold extract_author_post_id.
    rewrite Hsplit, (SplitFacts.split_clean _ _ Hp). reflexivity.
  - intros tail. unfold extract_author_post_id.
    change (profile +:+ "/" +:+ tail) with (profile +:+ String "/" tail).
    rewrite Hsplit, (SplitFacts.split_app_sep _ _ _ Hp).
    pose proof (StrFacts.split_nonempty "/" tail).
    destruct (Str.split "/" tail) as [|seg segs]; [done|]. reflexivity.
Qed.

(** The hypotheses hold of the parts of a profile link. *)
Lemma extract_from_url_parts_witness :
  extract_author_post_id (VStr ("https:" +:+ "//" +:+ "www.tiktok.com" +:+ "/" +:+ "@jane.doe"))
  = Ok (Str.remove "@" "@jane.doe",
        "https://www.tiktok.com/@" +:+ Str.remove "@" "@jane.doe",
        "@jane.doe").
Proof.
  apply (extract_from_url_parts "https:" "www.tiktok.com" "@jane.doe");
    reflexivity.
Defined.

(** X4.  What the SearchResult and ImageResult normalizers do with a
    record is decided by its snippet and its link alone, the snippet
    first.  [get_items_from_search_results] raises [TypeError] exactly
    when the snippet is present and not a string; otherwise
    [AttributeError] exactly when the link is present and not a string;
    otherwise [IndexError] exactly when the link (the empty string when
    the key is absent) has fewer than three ['/']; and it returns a
    tuple in the one remaining case.  [get_items_from_images_results]
    does the same without the snippet.  A record without a link is
    therefore refused by both. *)
Theorem normalizer_outcomes (entry : gmap string Value) :
  (get_items_from_search_results entry = Raise TypeError
   ↔ ¬ ∃ s, get entry "snippet" (VStr "") = VStr s)
  ∧ (get_items_from_search_results entry = Raise AttributeError
     ↔ (∃ s, get entry "snippet" (VStr "") = VStr s)
       ∧ ¬ ∃ l, get entry "link" (VStr "") = VStr l)
  ∧ (get_items_from_search_results entry = Raise IndexError
     ↔ (∃ s, get entry "snippet" (VStr "") = VStr s)
       ∧ ∃ l, get entry "link" (VStr "") = VStr l ∧ occurrences "/" l < 3)
  ∧ ((∃ t, get_items_from_search_results entry = Ok t)
     ↔ (∃ s, get entry "snippet" (VStr "") = VStr s)
       ∧ ∃ l, get entry "link" (VStr "") = VStr l ∧ 3 ≤ occurrences "/" l)
  ∧ (get_items_from_images_results entry = Raise AttributeError
     ↔ ¬ ∃ l, get entry "link" (VStr "") = VStr l)
  ∧ (get_items_from_images_results entry = Raise IndexError
     ↔ ∃ l, get entry "link" (VStr "") = VStr l ∧ occurrences "/" l < 3)
  ∧ ((∃ t, get_items_from_images_results entry = Ok t)
     ↔ ∃ l, get entry "link" (VStr "") = VStr l ∧ 3 ≤ occurrences "/" l)
  ∧ (entry !! "link" = None →
     get_items_from_images_results entry = Raise IndexError
     ∧ ∃ e, get_items_from_search_results entry = Raise e).
Proof.
  unfold get_items_from_search_results, get_items_from_images_results.
  assert (Habsent : entry !! "link" = None →
            get entry "link" (VStr "") = VStr "").
  { apply NormalizerFacts.get_absent. }
  destruct (get entry "snippet" (VStr "")) as [|snip|snips] eqn:Hs;
    destruct (get entry "link" (VStr "")) as [|l|ll] eqn:Hl.
  all: try destruct (NormalizerFacts.likes_comments_total snip) as (lk & cm & ->).
  all: try (destruct (OutcomeFacts.extract_cases l)
              as [[-> Hocc] | [[[[a la] p] ->] Hocc]]).
  all: simpl.
  all: split_and!.
  all: try (intros Hnone; specialize (Habsent Hnone);
            first [ discriminate Habsent
                  | injection Habsent as ->;
                    first [ vm_compute in Hocc; lia | split; eauto ] ]).
  all: split; intros HH.
  all: repeat match goal with
         | H : _ ∧ _ |- _ => destruct H
         | H : ∃ _, _ |- _ => destruct H
         | H : VStr _ = VStr _ |- _ => injection H as ->
         | H : @eq Value _ _ |- _ => discriminate H
         | H : @eq (result _) _ _ |- _ => discriminate H
         | H : ¬ _ |- _ => exfalso; apply H; by eauto
         end.
  all: try done; try lia.
  all: try (intros [? ?]; discriminate).
  all: try (split; [by eauto|]).
  all: try (intros [? ?]; discriminate).
  all: eauto.
Qed.

(** X5.  A text without a digit yields no count: both components of
    [extract_likes_comments] are [None], whatever words the text holds;
    and every tuple the SearchResult normalizer emits for a record whose
    snippet is absent or free of digits carries null likes and null
    comments (positions 9 and 10). *)
Theorem no_digit_no_count (text : string) :
  str_forall (λ c, negb (Str.is_digit c)) text = true →
  extract_likes_comments (VStr text) = Ok (VNone, VNone)
  ∧ ∀ entry t,
      get entry "snippet" (VStr "") = VStr text →
      get_items_from_search_results entry = Ok t →
      t !! 9 = Some VNone ∧ t !! 10 = Some VNone.
Proof.
  intros Hnd.
  assert (E : extract_likes_comments (VStr text) = Ok (VNone, VNone)).
  { destruct (SearchFacts.found_spec "Likes" text) as [_ [_ L]].
    destruct (SearchFacts.found_spec "Comments" text) as [_ [_ C]].
    unfold extract_likes_comments. simpl.
    change (Re.search_str likes_pattern text)
      with (Re.search_str (count_pattern "Likes") text).
    change (Re.search_str comments_pattern text)
      with (Re.search_str (count_pattern "Comments") text).
    rewrite L, C; [done| |];
      intros pre n O; apply OutcomeFacts.occurrence_has_digit in O; congruence. }
  split; [exact E|].
  intros entry t Hs Ht.
  destruct (NormalizerFacts.search_results_inv _ _ Ht)
    as (sn' & link & seg & Hs' & Hl & Hseg).
  rewrite Hs in Hs'. injection Hs' as <-.
  rewrite (NormalizerFacts.search_results_ok _ _ _ _ _ _ Hs Hl Hseg E) in Ht.
  by injection Ht as <-.
Qed.

(** The hypothesis holds of the second example of the specification and
    of the empty snippet. *)
Lemma no_digit_no_count_witness :
  extract_likes_comments (VStr "no stats here") = Ok (VNone, VNone)
  ∧ extract_likes_comments (VStr "") = Ok (VNone, VNone).
Proof.
  split.
  - apply (no_digit_no_count "no stats here"). reflexivity.
  - apply (no_digit_no_count ""). reflexivity.
Defined.

(* ===================================================================== *)
(** * Further properties of [sql_manager.py]                              *)
(* ===================================================================== *)

(** X6.  A batch whose records all normalize and bind is inserted whole
    by [insert_search_results] (and likewise by [insert_images_results],
    [insert_related_content]): the table gains one row per record, in
    the order of the batch, nothing is printed, nothing is raised, and
    no file is touched.  The empty batch changes nothing.  Whatever
    follows such records in a batch is handled as by a call of its own:
    [f (good ++ data)] ends in the world, and with the outcome, of
    [f good] followed by [f data]. *)
Theorem insert_batch_whole_and_split
    (table : string) (cols : list string)
    (items : gmap string Value → result (list Value))
    (f : list (gmap string Value) → World → World * result ())
    (w : World) (d : gmap string Table) (t : Table)
    (good : list (gmap string Value)) (valss : list (list SqlVal)) :
  (table, cols, items, f) ∈ inserters →
  store w = Some d →
  d !! table = Some t →
  Forall (λ c, c ∈ columns t) cols →
  Forall2 (λ entry vals, bound items entry = Ok vals) good valss →
  f good w
  = (mkWorld (Some (<[table := append_rows t cols valss]> d))
       (files w) (stdout w), Ok ())
  ∧ f [] w = (w, Ok ())
  ∧ ∀ data, f (good ++ data) w = f data (f good w).1.
Proof.
  intros Hin Hd Ht Hcols Hgood.
  destruct (BatchFacts.inserters_spec _ _ _ _ Hin) as [-> arity].
  assert (Hrows : ∀ data,
    insert_into table cols items (good ++ data) w
    = (let '(conn', r) :=
         insert_rows table cols items data
           (mkConn (<[table := append_rows t cols valss]> d)
                   (<[table := append_rows t cols valss]> d)) in
       finish (λ e, "An error occurred while inserting data: " +:+ e) conn' r w)).
  { intros data. unfold insert_into, create_sql_connection, connect.
    rewrite Hd.
    by rewrite (ManagerFacts.insert_rows_good table cols items arity
                  _ _ Hgood _ _ _ Ht Hcols). }
  assert (Hwhole : insert_into table cols items good w
    = (mkWorld (Some (<[table := append_rows t cols valss]> d))
         (files w) (stdout w), Ok ())).
  { rewrite <- (app_nil_r good) at 1. by rewrite Hrows. }
  split; [exact Hwhole|]. split.
  - unfold insert_into, create_sql_connection, connect. rewrite Hd. simpl.
    unfold set_store, close. simpl. rewrite <- Hd. by destruct w.
  - intros data. rewrite Hrows, Hwhole. simpl.
    unfold insert_into, create_sql_connection, connect. simpl.
    destruct (insert_rows _ _ _ data _) as [conn' r].
    unfold finish, set_store, print. simpl. by destruct r as [|[]].
Qed.

(** The hypotheses hold together: two related-content records inserted
    into empty tables. *)
Lemma insert_batch_whole_and_split_witness :
  store empty_tables_world = Some empty_tables_store
  ∧ (insert_related_content [card_a; card_c] empty_tables_world).2 = Ok ()
  ∧ stdout (insert_related_content [card_a; card_c] empty_tables_world).1 = [].
Proof.
  split; [reflexivity|].
  destruct (insert_batch_whole_and_split
              "related_content" related_content_fields
              get_items_from_related_content insert_related_content
              empty_tables_world empty_tables_store
              (mkTable related_content_columns [])
              [card_a; card_c]
              [[SText "TikTok"; SText "https://www.tiktok.com/@a/video/1";
                SNull; SNull];
               [SText "TikTok"; SText "https://www.tiktok.com/@c/video/3";
                SNull; SNull]])
    as (H & _ & _).
  - unfold inserters. apply elem_of_cons. right. apply elem_of_cons. right.
    apply elem_of_cons. left. reflexivity.
  - reflexivity.
  - reflexivity.
  - apply (bool_decide_unpack _). vm_compute. reflexivity.
  - constructor; [reflexivity|]. constructor; [reflexivity | constructor].
  - rewrite H. split; reflexivity.
Defined.

(** X7.  Whatever the batch and however the call ends, an insert only
    appends: the rows that were in its table are still there, in place
    and before the new ones, at most one row per record has been added,
    the columns of the table and every other table are as they were, a
    missing table stays missing, and no file is touched. *)
Theorem insert_only_appends
    (table : string) (cols : list string)
    (items : gmap string Value → result (list Value))
    (f : list (gmap string Value) → World → World * result ())
    (data : list (gmap string Value)) (w : World) (d : gmap string Table) :
  (table, cols, items, f) ∈ inserters →
  store w = Some d →
  ∃ d',
    store (f data w).1 = Some d'
    ∧ (∀ name, name ≠ table → d' !! name = d !! name)
    ∧ (d !! table = None → d' !! table = None)
    ∧ (∀ t, d !! table = Some t →
         ∃ news, d' !! table = Some (mkTable (columns t) (rows t ++ news))
                 ∧ length news ≤ length data)
    ∧ files (f data w).1 = files w.
Proof.
  intros Hin Hd.
  destruct (BatchFacts.inserters_spec _ _ _ _ Hin) as [-> _].
  unfold insert_into, create_sql_connection, connect. rewrite Hd.
  destruct (insert_rows table cols items data (mkConn d d)) as [conn' r] eqn:E.
  apply BatchFacts.insert_rows_any in E as (d' & -> & H1 & H2 & H3 & _).
  exists d'. unfold finish. by destruct r as [|[]].
Qed.

(** The hypothesis holds of a batch with a record that cannot be
    bound. *)
Lemma insert_only_appends_witness :
  store sample_world = Some sample_store
  ∧ ∃ d', store (insert_images_results [card_a; card_bad] sample_world).1
          = Some d'
          ∧ d' !! "query_search_results"
            = sample_store !! "query_search_results".
Proof.
  split; [reflexivity|].
  destruct (insert_only_appends "images_results" images_results_fields
              get_items_from_images_results insert_images_results
              [card_a; card_bad] sample_world sample_store)
    as (d' & Hd' & Hother & _).
  - unfold inserters. apply elem_of_cons. right. apply elem_of_cons. left.
    reflexivity.
  - reflexivity.
  - exists d'. split; [exact Hd'|]. apply Hother. discriminate.
Defined.



(** X9.  When the table of an insert does not exist, the first record
    that normalizes ends the call: the driver's "no such table" is
    printed once, nothing is raised, the store is left as it was, and
    the whole batch is dropped. *)
Theorem insert_into_missing_table
    (table : string) (cols : list string)
    (items : gmap string Value → result (list Value))
    (f : list (gmap string Value) → World → World * result ())
    (w : World) (d : gmap string Table)
    (entry : gmap string Value) (params : list Value)
    (rest : list (gmap string Value)) :
  (table, cols, items, f) ∈ inserters →
  store w = Some d →
  d !! table = None →
  items entry = Ok params →
  f (entry :: rest) w
  = (mkWorld (Some d) (files w)
       (stdout w ++ ["An error occurred while inserting data: no such table: "
                     +:+ table]),
     Ok ()).
Proof.
  intros Hin Hd Ht Hitems.
  destruct (BatchFacts.inserters_spec _ _ _ _ Hin) as [-> _].
  unfold insert_into, create_sql_connection, connect. rewrite Hd.
  cbn [insert_rows]. rewrite Hitems. simpl. unfold insert. simpl.
  by rewrite Ht.
Qed.

(** The hypotheses hold together: the related-content table is missing
    from the store. *)
Lemma insert_into_missing_table_witness :
  store two_tables_world = Some two_tables_store
  ∧ two_tables_store !! "related_content" = None
  ∧ stdout (insert_related_content [card_a; card_c] two_tables_world).1
    = ["An error occurred while inserting data: no such table: related_content"].
Proof.
  split; [reflexivity|]. split; [reflexivity|].
  rewrite (insert_into_missing_table "related_content" related_content_fields
             get_items_from_related_content insert_related_content
             two_tables_world two_tables_store card_a
             [VStr "TikTok"; VStr "https://www.tiktok.com/@a/video/1";
              VNone; VNone] [card_c]).
  - reflexivity.
  - unfold inserters. apply elem_of_cons. right. apply elem_of_cons. right.
    apply elem_of_cons. left. reflexivity.
  - reflexivity.
  - reflexivity.
  - reflexivity.
Defined.

(** X10.  When the database file cannot be opened, no operation of the
    manager raises and none changes the store or the files: the
    constructor still returns a manager (after six printed lines, two
    for each table), every insert drops its batch, the export writes
    nothing, and the collected links are the empty list. *)
Theorem closed_store_degrades_to_no_op (w : World) :
  store w = None →
  (∀ out, ∃ w',
     init out w = (w', Ok (mkManager out (out +:+ "/database.sql")))
     ∧ store w' = None ∧ files w' = files w
     ∧ length (stdout w') = length (stdout w) + 6)
  ∧ (∀ table cols items f data,
       (table, cols, items, f) ∈ inserters →
       f data w
       = (mkWorld None (files w)
            (stdout w ++ ["An error occurred: unable to open database file";
                          "Failed to create the database connection."]),
          Ok ()))
  ∧ (∀ self,
       fetch_all_data self w
       = (mkWorld None (files w)
            (stdout w ++ ["An error occurred: unable to open database file"]),
          Ok ()))
  ∧ get_collected_videos w
    = (mkWorld None (files w)
         (stdout w ++ ["An error occurred: unable to open database file"]),
       Ok []).
Proof.
  intros Hd. split_and!.
  - intros out. unfold init, create_search_results_table,
      create_images_results_table, create_related_content_table.
    rewrite !ManagerFacts.create_table_spec. rewrite Hd. simpl.
    rewrite !ManagerFacts.create_table_spec. simpl. rewrite Hd. simpl.
    rewrite !ManagerFacts.create_table_spec. simpl. rewrite Hd. simpl.
    eexists. split; [reflexivity|]. simpl.
    split; [done|]. split; [done|]. rewrite !length_app. simpl. lia.
  - intros table cols items f data Hin.
    destruct (BatchFacts.inserters_spec _ _ _ _ Hin) as [-> _].
    unfold insert_into, create_sql_connection, connect. rewrite Hd.
    unfold print. simpl. rewrite Hd. by rewrite <- app_assoc.
  - intros self. unfold fetch_all_data, create_sql_connection, connect.
    rewrite Hd. unfold print. by rewrite Hd.
  - unfold get_collected_videos, create_sql_connection, connect.
    rewrite Hd. unfold print. by rewrite Hd.
Qed.

(** The hypothesis holds of a world without a database. *)
Lemma closed_store_degrades_to_no_op_witness :
  store closed_world = None
  ∧ get_collected_videos closed_world
    = (mkWorld None ∅ ["An error occurred: unable to open database file"],
       Ok []).
Proof.
  split; [reflexivity|].
  destruct (closed_store_degrades_to_no_op closed_world eq_refl)
    as (_ & _ & _ & H).
  exact H.
Defined.

(** X11.  When the three tables exist, [fetch_all_data] returns
    normally, prints nothing, leaves the store as it is, and writes
    [<output>/<table>.csv] for each of them: the header is the table's
    column names ([record_id] first) and the body its rows, one line
    per row; every other file is left alone. *)
Theorem export_writes_every_table
    (self : SQLDatabaseManager) (w : World) (d : gmap string Table)
    (t1 t2 t3 : Table) :
  store w = Some d →
  d !! "query_search_results" = Some t1 →
  d !! "images_results" = Some t2 →
  d !! "related_content" = Some t3 →
  (fetch_all_data self w).2 = Ok ()
  ∧ stdout (fetch_all_data self w).1 = stdout w
  ∧ store (fetch_all_data self w).1 = store w
  ∧ (∀ name t,
       (name, t) ∈ [ ("query_search_results", t1); ("images_results", t2);
                     ("related_content", t3) ] →
       files (fetch_all_data self w).1 !! (output self +:+ "/" +:+ name +:+ ".csv")
       = Some (mkFrame (columns t) (rows t)))
  ∧ (∀ path,
       (∀ name, name ∈ ["query_search_results"; "images_results";
                        "related_content"] →
                path ≠ output self +:+ "/" +:+ name +:+ ".csv") →
       files (fetch_all_data self w).1 !! path = files w !! path).
Proof.
  intros Hd H1 H2 H3.
  assert (Hne : ∀ n1 n2, n1 +:+ ".csv" ≠ n2 +:+ ".csv" →
            output self +:+ "/" +:+ n1 +:+ ".csv"
            ≠ output self +:+ "/" +:+ n2 +:+ ".csv").
  { intros n1 n2 H E. by apply H, (ManagerFacts.csv_path_inj (output self)). }
  unfold fetch_all_data, create_sql_connection, connect. rewrite Hd.
  simpl. unfold read_sql_query. simpl. rewrite H1, H2, H3. simpl.
  split_and!; try done.
  - intros name t Hin.
    repeat (apply elem_of_cons in Hin as [[= -> ->] | Hin]);
      try (by apply elem_of_nil in Hin).
    + rewrite !lookup_insert_ne by (by apply Hne). by rewrite lookup_insert_eq.
    + rewrite lookup_insert_ne by (by apply Hne). by rewrite lookup_insert_eq.
    + by rewrite lookup_insert_eq.
  - intros path Hpath.
    rewrite !lookup_insert_ne; [done|..];
      intros E; symmetry in E; revert E; apply Hpath; set_solver.
Qed.

(** The hypotheses hold together: the three tables, empty. *)
Lemma export_writes_every_table_witness :
  store empty_tables_world = Some empty_tables_store
  ∧ (fetch_all_data sample_manager empty_tables_world).2 = Ok ()
  ∧ files (fetch_all_data sample_manager empty_tables_world).1
      !! (output sample_manager +:+ "/" +:+ "images_results" +:+ ".csv")
    = Some (mkFrame images_results_columns []).
Proof.
  split; [reflexivity|].
  destruct (export_writes_every_table sample_manager empty_tables_world
              empty_tables_store
              (mkTable search_results_columns [])
              (mkTable images_results_columns [])
              (mkTable related_content_columns [])
              eq_refl eq_refl eq_refl eq_refl) as (H1 & _ & _ & H4 & _).
  split; [exact H1|].
  apply (H4 "images_results" (mkTable images_results_columns [])).
  apply elem_of_cons. right. apply elem_of_cons. left. reflexivity.
Defined.

(** X12.  Exporting again changes nothing more: a second
    [fetch_all_data] right after the first ends like the first and
    leaves the very files and the very store the first call left (each
    file is overwritten with the same content), whichever tables
    exist. *)
Theorem export_twice_is_export_once (self : SQLDatabaseManager) (w : World) :
  (fetch_all_data self (fetch_all_data self w).1).2 = (fetch_all_data self w).2
  ∧ files (fetch_all_data self (fetch_all_data self w).1).1
    = files (fetch_all_data self w).1
  ∧ store (fetch_all_data self (fetch_all_data self w).1).1
    = store (fetch_all_data self w).1.
Proof.
  unfold fetch_all_data, create_sql_connection, connect.
  destruct (store w) as [d|] eqn:Hd; simpl; [|by rewrite Hd].
  simpl. unfold read_sql_query. simpl.
  destruct (d !! "query_search_results") as [t1|] eqn:H1; simpl;
    [|by rewrite H1].
  destruct (d !! "images_results") as [t2|] eqn:H2; simpl.
  - destruct (d !! "related_content") as [t3|] eqn:H3; simpl.
    + rewrite H1, H2, H3. simpl. split; [done|]. split; [|done].
      apply map_eq. intros k. rewrite !lookup_insert.
      repeat case_decide; done.
    + rewrite H1, H2, H3. simpl. split; [done|]. split; [|done].
      apply map_eq. intros k. rewrite !lookup_insert.
      repeat case_decide; done.
  - rewrite H1, H2. simpl. split; [done|]. split; [|done].
    apply map_eq. intros k. rewrite !lookup_insert.
    repeat case_decide; done.
Qed.

(** X13.  Reading never changes the database: after [fetch_all_data]
    and after [get_collected_videos] the store is what it was, however
    the call ends.  [get_collected_videos] moreover never raises,
    never touches a file, and never returns a value twice. *)
Theorem reads_leave_the_store (w : World) :
  (∀ self, store (fetch_all_data self w).1 = store w)
  ∧ store (get_collected_videos w).1 = store w
  ∧ files (get_collected_videos w).1 = files w
  ∧ ∃ data, (get_collected_videos w).2 = Ok data ∧ NoDup data.
Proof.
  split_and!.
  - intros self. unfold fetch_all_data, create_sql_connection, connect.
    destruct (store w) as [d|] eqn:Hd; simpl; [|done].
    simpl. unfold read_sql_query. simpl.
    repeat (match goal with
            | |- context [d !! ?k] => destruct (d !! k); simpl
            end); by rewrite ?Hd.
  - unfold get_collected_videos, create_sql_connection, connect.
    destruct (store w) as [d|] eqn:Hd; simpl; [|done].
    destruct (select_union _ _ _ _) as [data|[]]; simpl; by rewrite ?Hd.
  - unfold get_collected_videos, create_sql_connection, connect.
    destruct (store w) as [d|] eqn:Hd; simpl; [|done].
    by destruct (select_union _ _ _ _) as [data|[]].
  - unfold get_collected_videos, create_sql_connection, connect.
    destruct (store w) as [d|] eqn:Hd; simpl;
      [|exists []; split; [done | constructor]].
    destruct (select_union _ _ _ _) as [data|e] eqn:E; simpl.
    + exists data. split; [done|].
      unfold select_union in E.
      repeat (match type of E with
              | context [match ?x with _ => _ end] => destruct x; try done
              end).
      injection E as <-. apply NoDup_remove_dups.
    + unfold select_union in E.
      assert (∃ msg, e = SqliteError msg) as [msg ->].
      { repeat (match type of E with
                | context [match ?x with _ => _ end] => destruct x; try done
                end); injection E as <-; eauto. }
      exists []. split; [done | constructor].
Qed.

(** X14.  When one of the two tables it reads is missing,
    [get_collected_videos] returns the empty list without raising: the
    driver's "no such table" is printed once (under the words "while
    inserting data" of the handler), and the store and the files are
    left as they were. *)
Theorem collected_links_without_table (w : World) (d : gmap string Table) :
  store w = Some d →
  d !! "query_search_results" = None ∨ d !! "images_results" = None →
  ∃ name,
    name ∈ ["query_search_results"; "images_results"]
    ∧ d !! name = None
    ∧ get_collected_videos w
      = (mkWorld (Some d) (files w)
           (stdout w ++ ["An error occurred while inserting data: no such table: "
                         +:+ name]),
         Ok []).
Proof.
  intros Hd Hmiss.
  unfold get_collected_videos, create_sql_connection, connect. rewrite Hd.
  unfold select_union. simpl.
  destruct (d !! "images_results") as [ti|] eqn:Hi.
  - assert (Hs : d !! "query_search_results" = None).
    { destruct Hmiss as [Hs|Hi']; [exact Hs | discriminate Hi']. }
    rewrite Hs. simpl.
    exists "query_search_results".
    split; [by apply elem_of_cons; left|]. done.
  - simpl. exists "images_results".
    split; [apply elem_of_cons; right; by apply elem_of_cons; left|]. done.
Qed.

(** The hypotheses hold together: a store without tables. *)
Lemma collected_links_without_table_witness :
  store (mkWorld (Some ∅) ∅ []) = Some ∅
  ∧ (get_collected_videos (mkWorld (Some ∅) ∅ [])).2 = Ok [].
Proof.
  split; [reflexivity|].
  destruct (collected_links_without_table (mkWorld (Some ∅) ∅ []) ∅)
    as (name & _ & _ & H).
  - reflexivity.
  - left. reflexivity.
  - rewrite H. reflexivity.
Defined.

(** X15.  Constructing the manager over a database that opens returns
    the manager (its database file is [<output>/database.sql]), prints
    nothing, touches no file, and leaves a store in which the three
    tables exist: a table that was there is kept with its columns and
    rows, a missing one is created empty with the columns of its
    statement, and every other table is as it was.  Constructing a
    second manager over the result changes nothing. *)
Theorem construction_ensures_the_tables
    (out : string) (w : World) (d : gmap string Table) :
  store w = Some d →
  ∃ d',
    init out w
    = (mkWorld (Some d') (files w) (stdout w),
       Ok (mkManager out (out +:+ "/database.sql")))
    ∧ (∀ name cols g, (name, cols, g) ∈ table_ensurers →
         d' !! name = Some (default (mkTable cols []) (d !! name)))
    ∧ (∀ name t, d !! name = Some t → d' !! name = Some t)
    ∧ (∀ name, name ∉ ["query_search_results"; "images_results";
                       "related_content"] → d' !! name = d !! name)
    ∧ (init out (init out w).1).1 = (init out w).1.
Proof.
  intros Hd.
  set (ensure := λ (name : string) (cols : list string) (m : gmap string Table),
         match m !! name with
         | Some _ => m
         | None => <[name := mkTable cols []]> m
         end).
  assert (Hinit : ∀ w0 d0, store w0 = Some d0 →
    init out w0
    = (mkWorld
         (Some (ensure "related_content" related_content_columns
                  (ensure "images_results" images_results_columns
                     (ensure "query_search_results" search_results_columns d0))))
         (files w0) (stdout w0),
       Ok (mkManager out (out +:+ "/database.sql")))).
  { intros w0 d0 H0. unfold init, create_search_results_table,
      create_images_results_table, create_related_content_table.
    rewrite ManagerFacts.create_table_spec, H0. simpl.
    rewrite ManagerFacts.create_table_spec. simpl.
    rewrite ManagerFacts.create_table_spec. simpl. done. }
  assert (Hlook : ∀ name cols m k,
    ensure name cols m !! k
    = if decide (name = k)
      then Some (default (mkTable cols []) (m !! k))
      else m !! k).
  { intros name cols m k. unfold ensure.
    destruct (decide (name = k)) as [->|Hne].
    - destruct (m !! k) as [t|] eqn:E; simpl; [done|].
      by rewrite lookup_insert_eq.
    - destruct (m !! name); [done|]. by rewrite lookup_insert_ne. }
  eexists. split; [by apply Hinit|]. split_and!.
  - intros name cols g Hin. unfold table_ensurers in Hin.
    repeat (apply elem_of_cons in Hin as [[= -> -> ->] | Hin]);
      try (by apply elem_of_nil in Hin);
      rewrite !Hlook; repeat case_decide; done.
  - intros name t Ht. rewrite !Hlook.
    repeat case_decide; subst; by rewrite ?Ht.
  - intros name Hname. rewrite !Hlook.
    repeat case_decide; subst; try done; set_solver.
  - rewrite (Hinit w d Hd). simpl.
    erewrite Hinit by reflexivity. simpl. f_equal. f_equal.
    apply map_eq. intros k. rewrite !Hlook.
    repeat case_decide; subst; try done; by rewrite ?Hlook.
Qed.

(** The hypothesis holds of a new, empty database. *)
Lemma construction_ensures_the_tables_witness :
  store (mkWorld (Some ∅) ∅ []) = Some ∅
  ∧ ∃ d', store (init "out" (mkWorld (Some ∅) ∅ [])).1 = Some d'
          ∧ d' !! "images_results" = Some (mkTable images_results_columns []).
Proof.
  split; [reflexivity|].
  destruct (construction_ensures_the_tables "out" (mkWorld (Some ∅) ∅ []) ∅
              eq_refl) as (d' & Hinit & Htables & _).
  exists d'. split; [by rewrite Hinit|].
  apply (Htables "images_results" images_results_columns
           create_images_results_table).
  unfold table_ensurers. apply elem_of_cons. right. apply elem_of_cons. left.
  reflexivity.
Defined.

(** X16.  In a table created by the manager, the columns of the
    [INSERT] statement, the columns of the [CREATE] statement after
    [record_id], and the components of the normalizer's tuple come in
    one order: a batch of records that normalize to bindable tuples is
    stored as one row per record, each the key followed by the tuple
    ([None] as null, a string as text), with keys that count up from
    the next key of the table. *)
Theorem rows_are_key_then_tuple
    (table : string) (cols : list string)
    (items : gmap string Value → result (list Value))
    (f : list (gmap string Value) → World → World * result ())
    (w : World) (d : gmap string Table) (rs : list (list SqlVal))
    (good : list (gmap string Value)) (paramss : list (list Value)) :
  (table, cols, items, f) ∈ inserters →
  store w = Some d →
  d !! table = Some (mkTable ("record_id" :: cols) rs) →
  Forall2 (λ entry params,
             items entry = Ok params
             ∧ Forall (λ v, bindable v = true) params) good paramss →
  (∃ g, (table, "record_id" :: cols, g) ∈ table_ensurers)
  ∧ f good w
    = (mkWorld
         (Some (<[table :=
                   mkTable ("record_id" :: cols)
                     (rs ++ keyed (next_key (mkTable ("record_id" :: cols) rs))
                                  (stored_row <$> paramss))]> d))
         (files w) (stdout w), Ok ())
  ∧ length (keyed (next_key (mkTable ("record_id" :: cols) rs))
                  (stored_row <$> paramss)) = length good.
Proof.
  intros Hin Hd Ht Hgood.
  destruct (RowFacts.inserters_columns _ _ _ _ Hin) as (_ & _ & Hg).
  split; [exact Hg|].
  split; [exact (CallFacts.inserter_keyed _ _ _ _ _ _ _ _ _ Hin Hd Ht Hgood)|].
  by rewrite RowFacts.keyed_length, length_fmap, (Forall2_length _ _ _ Hgood).
Qed.

(** The hypotheses hold together: a full search result into the empty
    tables. *)
Lemma rows_are_key_then_tuple_witness :
  store empty_tables_world = Some empty_tables_store
  ∧ (d ← store (insert_search_results [full_entry] empty_tables_world).1;
     t ← d !! "query_search_results";
     Some (rows t))
    = Some [ [ SInt 1; SText "TikTok"; SText "Dance";
               SText "1.2K Likes, 340 Comments";
               SText "https://www.tiktok.com/@jane.doe/video/12345";
               SText "t.jpg"; SText "v.mp4"; SText "dance, clip";
               SText "www.tiktok.com";
               SText "Dance 1.2K Likes, 340 Comments";
               SText "1.2K"; SText "340"; SText "jane.doe";
               SText "https://www.tiktok.com/@jane.doe"; SText "12345" ] ].
Proof.
  split; [reflexivity|].
  destruct (rows_are_key_then_tuple
              "query_search_results" search_results_fields
              get_items_from_search_results insert_search_results
              empty_tables_world empty_tables_store [] [full_entry]
              [ [ VStr "TikTok"; VStr "Dance"; VStr "1.2K Likes, 340 Comments";
                  VStr "https://www.tiktok.com/@jane.doe/video/12345";
                  VStr "t.jpg"; VStr "v.mp4"; VStr "dance, clip";
                  VStr "www.tiktok.com";
                  VStr "Dance 1.2K Likes, 340 Comments";
                  VStr "1.2K"; VStr "340"; VStr "jane.doe";
                  VStr "https://www.tiktok.com/@jane.doe"; VStr "12345" ] ])
    as (_ & H & _).
  - unfold inserters. apply list_elem_of_here.
  - reflexivity.
  - reflexivity.
  - constructor; [|constructor]. split; [reflexivity|].
    apply (bool_decide_unpack _). vm_compute. reflexivity.
  - rewrite H. vm_compute. reflexivity.
Defined.

(** X17.  Insert-then-export round trip: into a database that holds no
    table yet, construct the manager, insert a batch of records that
    normalize to bindable tuples, and export; the CSV file of the table
    then has the header [record_id] followed by the columns of the
    statement and, for the N records of the batch, exactly N lines, the
    k-th being the key k followed by the tuple the normalizer computed
    for the k-th record. *)
Theorem insert_then_export_round_trip
    (table : string) (cols : list string)
    (items : gmap string Value → result (list Value))
    (f : list (gmap string Value) → World → World * result ())
    (out : string) (w : World)
    (good : list (gmap string Value)) (paramss : list (list Value)) :
  (table, cols, items, f) ∈ inserters →
  store w = Some ∅ →
  Forall2 (λ entry params,
             items entry = Ok params
             ∧ Forall (λ v, bindable v = true) params) good paramss →
  files (fetch_all_data (mkManager out (out +:+ "/database.sql"))
           (f good (init out w).1).1).1
    !! (out +:+ "/" +:+ table +:+ ".csv")
  = Some (mkFrame ("record_id" :: cols) (keyed 1 (stored_row <$> paramss)))
  ∧ length (keyed 1 (stored_row <$> paramss)) = length good.
Proof.
  intros Hin Hd Hgood.
  split;
    [|by rewrite RowFacts.keyed_length, length_fmap, (Forall2_length _ _ _ Hgood)].
  rewrite (CallFacts.init_opens out w ∅ Hd). simpl.
  set (d1 := ensured "related_content" related_content_columns
               (ensured "images_results" images_results_columns
                  (ensured "query_search_results" search_results_columns ∅))).
  assert (H1 : d1 !! "query_search_results"
               = Some (mkTable search_results_columns [])) by done.
  assert (H2 : d1 !! "images_results"
               = Some (mkTable images_results_columns [])) by done.
  assert (H3 : d1 !! "related_content"
               = Some (mkTable related_content_columns [])) by done.
  clearbody d1.
  pose proof Hin as Hin'. unfold inserters in Hin'.
  repeat (apply elem_of_cons in Hin' as [[= -> -> -> ->] | Hin']);
    try (by apply elem_of_nil in Hin').
  - erewrite (CallFacts.inserter_keyed _ _ _ _ _ d1 [] good paramss);
      [|exact Hin|reflexivity|exact H1|exact Hgood]. simpl.
    erewrite CallFacts.fetch_all_data_writes;
      [|reflexivity|apply lookup_insert_eq
       |rewrite lookup_insert_ne by done; exact H2
       |rewrite lookup_insert_ne by done; exact H3].
    simpl. rewrite !lookup_insert_ne by (by apply CallFacts.csv_path_ne).
    by rewrite lookup_insert_eq.
  - erewrite (CallFacts.inserter_keyed _ _ _ _ _ d1 [] good paramss);
      [|exact Hin|reflexivity|exact H2|exact Hgood]. simpl.
    erewrite CallFacts.fetch_all_data_writes;
      [|reflexivity|rewrite lookup_insert_ne by done; exact H1
       |apply lookup_insert_eq
       |rewrite lookup_insert_ne by done; exact H3].
    simpl. rewrite lookup_insert_ne by (by apply CallFacts.csv_path_ne).
    by rewrite lookup_insert_eq.
  - erewrite (CallFacts.inserter_keyed _ _ _ _ _ d1 [] good paramss);
      [|exact Hin|reflexivity|exact H3|exact Hgood]. simpl.
    erewrite CallFacts.fetch_all_data_writes;
      [|reflexivity|rewrite lookup_insert_ne by done; exact H1
       |rewrite lookup_insert_ne by done; exact H2
       |apply lookup_insert_eq].
    simpl. by rewrite lookup_insert_eq.
Qed.

(** The hypotheses hold together: one full search result into a new
    database. *)
Lemma insert_then_export_round_trip_witness :
  store (mkWorld (Some ∅) ∅ []) = Some ∅
  ∧ files (fetch_all_data (mkManager "out" ("out" +:+ "/database.sql"))
             (insert_search_results [full_entry]
                (init "out" (mkWorld (Some ∅) ∅ [])).1).1).1
      !! ("out" +:+ "/" +:+ "query_search_results" +:+ ".csv")
    = Some (mkFrame ("record_id" :: search_results_fields)
              (keyed 1
                 (stored_row <$>
                    [ [ VStr "TikTok"; VStr "Dance";
                        VStr "1.2K Likes, 340 Comments";
                        VStr "https://www.tiktok.com/@jane.doe/video/12345";
                        VStr "t.jpg"; VStr "v.mp4"; VStr "dance, clip";
                        VStr "www.tiktok.com";
                        VStr "Dance 1.2K Likes, 340 Comments";
                        VStr "1.2K"; VStr "340"; VStr "jane.doe";
                        VStr "https://www.tiktok.com/@jane.doe";
                        VStr "12345" ] ]))).
Proof.
  split; [reflexivity|].
  apply (insert_then_export_round_trip
           "query_search_results" search_results_fields
           get_items_from_search_results insert_search_results
           "out" (mkWorld (Some ∅) ∅ []) [full_entry]).
  - unfold inserters. apply list_elem_of_here.
  - reflexivity.
  - constructor; [|constructor]. split; [reflexivity|].
    apply (bool_decide_unpack _). vm_compute. reflexivity.
Defined.

(** X18.  Insert-then-collect round trip: after a batch of search
    results (or of image results) that normalize to bindable tuples has
    been inserted into the manager's table, [get_collected_videos]
    returns, each once, exactly the links the two tables held before
    and the links of the records of the batch. *)
Theorem inserted_links_are_collected
    (w : World) (d : gmap string Table)
    (rs ri : list (list SqlVal))
    (good : list (gmap string Value)) (paramss : list (list Value)) :
  store w = Some d →
  d !! "query_search_results" = Some (mkTable search_results_columns rs) →
  d !! "images_results" = Some (mkTable images_results_columns ri) →
  (Forall2 (λ entry params,
              get_items_from_search_results entry = Ok params
              ∧ Forall (λ v, bindable v = true) params) good paramss →
   ∃ data,
     (get_collected_videos (insert_search_results good w).1).2 = Ok data
     ∧ NoDup data
     ∧ ∀ x, x ∈ data ↔
         (∃ row, row ∈ rs ∧ x = default SNull (row !! 4))
         ∨ (∃ row, row ∈ ri ∧ x = default SNull (row !! 3))
         ∨ ∃ entry link, entry ∈ good ∧ entry !! "link" = Some (VStr link)
                         ∧ x = SText link)
  ∧ (Forall2 (λ entry params,
                get_items_from_images_results entry = Ok params
                ∧ Forall (λ v, bindable v = true) params) good paramss →
     ∃ data,
       (get_collected_videos (insert_images_results good w).1).2 = Ok data
       ∧ NoDup data
       ∧ ∀ x, x ∈ data ↔
           (∃ row, row ∈ rs ∧ x = default SNull (row !! 4))
           ∨ (∃ row, row ∈ ri ∧ x = default SNull (row !! 3))
           ∨ ∃ entry link, entry ∈ good ∧ entry !! "link" = Some (VStr link)
                           ∧ x = SText link).
Proof.
  intros Hd Hs Hi.
  assert (Hnew : ∀ (items : gmap string Value → result (list Value)) i,
    (∀ entry params, items entry = Ok params →
       ∃ link, entry !! "link" = Some (VStr link)
               ∧ params !! i = Some (VStr link)) →
    Forall2 (λ entry params,
               items entry = Ok params
               ∧ Forall (λ v, bindable v = true) params) good paramss →
    ∀ x, x ∈ (λ vals : list SqlVal, default SNull (vals !! i))
               <$> (stored_row <$> paramss)
         ↔ ∃ entry link, entry ∈ good ∧ entry !! "link" = Some (VStr link)
                         ∧ x = SText link).
  { intros items i Hlink Hgood x.
    rewrite list_elem_of_fmap. setoid_rewrite list_elem_of_fmap. split.
    - intros (vals & -> & params & -> & Hp).
      apply list_elem_of_lookup in Hp as [j Hj].
      destruct (Forall2_lookup_r _ _ _ _ _ Hgood Hj) as (entry & He & Hitems & _).
      destruct (Hlink _ _ Hitems) as (link & Hpresent & Hat).
      exists entry, link. split; [by eapply list_elem_of_lookup_2|].
      split; [done|]. unfold stored_row. by rewrite list_lookup_fmap, Hat.
    - intros (entry & link & He & Hpresent & ->).
      apply list_elem_of_lookup in He as [j Hj].
      destruct (Forall2_lookup_l _ _ _ _ _ Hgood Hj) as (params & Hp & Hitems & _).
      destruct (Hlink _ _ Hitems) as (link' & Hpresent' & Hat).
      rewrite Hpresent in Hpresent'. injection Hpresent' as <-.
      exists (stored_row params). split.
      + unfold stored_row. by rewrite list_lookup_fmap, Hat.
      + exists params. split; [done | by eapply list_elem_of_lookup_2]. }
  assert (Hold : ∀ (rows : list (list SqlVal)) i x,
    x ∈ (λ row : list SqlVal, default SNull (row !! i)) <$> rows
    ↔ ∃ row, row ∈ rows ∧ x = default SNull (row !! i)).
  { intros rows i x. rewrite list_elem_of_fmap.
    split; [intros (row & -> & Hr) | intros (row & Hr & ->)]; eauto. }
  split; intros Hgood.
  - erewrite (CallFacts.inserter_keyed "query_search_results"
                search_results_fields get_items_from_search_results
                insert_search_results w d rs good paramss);
      [|apply list_elem_of_here|exact Hd|exact Hs|exact Hgood].
    unfold get_collected_videos, create_sql_connection, connect. simpl.
    unfold select_union. simpl.
    rewrite lookup_insert_ne by done. rewrite Hi, lookup_insert_eq. simpl.
    eexists. split; [reflexivity|]. split; [apply NoDup_remove_dups|].
    intros x. rewrite elem_of_remove_dups, elem_of_app, fmap_app, elem_of_app.
    rewrite LinkFacts.keyed_column.
    rewrite (Hnew get_items_from_search_results 3
               LinkFacts.search_results_link Hgood), !Hold.
    tauto.
  - erewrite (CallFacts.inserter_keyed "images_results"
                images_results_fields get_items_from_images_results
                insert_images_results w d ri good paramss);
      [|apply list_elem_of_further, list_elem_of_here
       |exact Hd|exact Hi|exact Hgood].
    unfold get_collected_videos, create_sql_connection, connect. simpl.
    unfold select_union. simpl.
    rewrite lookup_insert_eq. rewrite lookup_insert_ne by done. rewrite Hs. simpl.
    eexists. split; [reflexivity|]. split; [apply NoDup_remove_dups|].
    intros x. rewrite elem_of_remove_dups, elem_of_app, fmap_app, elem_of_app.
    rewrite LinkFacts.keyed_column.
    rewrite (Hnew get_items_from_images_results 2
               LinkFacts.images_results_link Hgood), !Hold.
    tauto.
Qed.

(** The hypotheses hold together: a search result for a new link into
    the sample store. *)
Lemma inserted_links_are_collected_witness :
  store sample_world = Some sample_store
  ∧ ∃ data,
      (get_collected_videos
         (insert_search_results
            [ {[ "link" := VStr "https://www.tiktok.com/@new/video/9" ]} ]
            sample_world).1).2 = Ok data
      ∧ NoDup data
      ∧ SText "https://www.tiktok.com/@new/video/9" ∈ data
      ∧ SText jane_link ∈ data
      ∧ SText "https://www.tiktok.com/@joe/video/7" ∈ data.
Proof.
  split; [reflexivity|].
  destruct (inserted_links_are_collected sample_world sample_store
              [ [ SInt 1; SText "TikTok"; SText "Dance"; SNull; SText jane_link;
                  SNull; SNull; SNull; SNull; SText "Dance "; SNull; SNull;
                  SText "jane.doe"; SText "https://www.tiktok.com/@jane.doe";
                  SText "12345" ] ]
              [ [ SInt 1; SText "TikTok"; SText "Dance"; SText jane_link; SNull;
                  SText "jane.doe"; SText "https://www.tiktok.com/@jane.doe";
                  SText "12345" ];
                [ SInt 2; SText "TikTok"; SNull;
                  SText "https://www.tiktok.com/@joe/video/7"; SNull;
                  SText "joe"; SText "https://www.tiktok.com/@joe"; SText "7" ] ]
              [ {[ "link" := VStr "https://www.tiktok.com/@new/video/9" ]} ]
              [ [ VNone; VNone; VNone;
                  VStr "https://www.tiktok.com/@new/video/9"; VNone; VNone;
                  VNone; VNone; VStr " "; VNone; VNone; VStr "new";
                  VStr "https://www.tiktok.com/@new"; VStr "9" ] ]
              eq_refl eq_refl eq_refl) as [H _].
  destruct H as (data & Hdata & Hnd & Hin).
  - constructor; [|constructor]. split; [reflexivity|].
    apply (bool_decide_unpack _). vm_compute. reflexivity.
  - exists data. split; [exact Hdata|]. split; [exact Hnd|].
    split; [|split]; apply Hin.
    + right; right. eexists _, _. split; [apply list_elem_of_here|].
      split; reflexivity.
    + left. eexists. split; [apply list_elem_of_here | reflexivity].
    + right; left. eexists.
      split; [apply list_elem_of_further, list_elem_of_here | reflexivity].
Defined.

